(** * The table normalizer of the NIBRS dashboard (src/app.py)

    A shallow embedding of [clean_colname], [clean_dataframe] and [load_csv]
    together with the part of pandas and of Python's [str] and [re] that these
    three functions call; and of the code of the dashboard that works on
    column names, pages and states: [_normalize_col_name] and [HIDDEN_SET],
    the visible columns and the page block of [agency_table_with_filters],
    the search for the two columns of the map and [to_code] in
    [plot_state_heatmap].

    Modelling conventions.
    - A Python [str] is a list of characters; a character is a code point
      below 256 ([ascii]), so that the three code points of the artifact
      "â\x88\x92" are the characters 226, 136 and 146.  On this range [\d] is
      [0-9], [\s] and [str.strip] agree on the twelve white-space code points
      of [is_space], and [re.IGNORECASE] is ASCII case folding.
    - The source names [pd.Int64Index], which pandas has up to the 1.x
      series and no longer from 2.0 on: the normalizer takes the pandas it
      runs on as a parameter, and the statements are made for both.  A
      column is an object column of strings and missing values, an int64
      column, a float64 column with NaN or a boolean column, the dtypes
      [read_csv] gives to the columns of a file.
    - Numbers are exact: an int64 is a [Z], a float64 is the finite decimal
      [dec] that [repr] prints for it.  This is what int64 and float64 do
      within the range of [exact_frame] (cells of at most fifteen digits,
      integers within int64); the rounding of longer numerals and the
      wrap-around of larger integers are not modelled, and the statements
      on the values of converted cells and on the outcome of the index
      conversion are made for tables within that range.
    - An exception is a value: functions that can raise return a [result]. *)

From Stdlib Require Import Ascii String DecimalString DecimalPos.
From Stdlib Require Import List ListDec ZArith Lia Bool Arith.
Import ListNotations.

Set Implicit Arguments.

(** ** Strings *)

Module Str.

Definition str := list ascii.

Definition lit (s : string) : str := list_ascii_of_string s.
Arguments lit s%_string.

Definition chr (n : nat) : ascii := ascii_of_nat n.
Definition ord (c : ascii) : nat := nat_of_ascii c.

Definition NL : ascii := chr 10.
Definition SP : ascii := chr 32.

(** [str.isspace] on one character, which is also the class [\s]. *)
Definition is_space (c : ascii) : bool :=
  let n := ord c in
  ((9 <=? n) && (n <=? 13)) || ((28 <=? n) && (n <=? 32))
  || (n =? 133) || (n =? 160).

(** The class [\d]. *)
Definition is_digit (c : ascii) : bool :=
  let n := ord c in (48 <=? n) && (n <=? 57).

Definition lower (c : ascii) : ascii :=
  let n := ord c in
  if (65 <=? n) && (n <=? 90) then chr (n + 32) else c.

Fixpoint prefixb (p s : str) : bool :=
  match p, s with
  | [], _ => true
  | a :: p', b :: s' => Ascii.eqb a b && prefixb p' s'
  | _ :: _, [] => false
  end.

(** Prefix test under [re.IGNORECASE]. *)
Fixpoint prefixb_ci (p s : str) : bool :=
  match p, s with
  | [], _ => true
  | a :: p', b :: s' => Ascii.eqb (lower a) (lower b) && prefixb_ci p' s'
  | _ :: _, [] => false
  end.

(** [s.replace(old, new)]: the occurrences of [old] are found from left to
    right and do not overlap.  The recursion skips [length old] characters
    after a hit, so it runs on a fuel that the length of [s] bounds. *)
Fixpoint replace_fuel (fuel : nat) (old new s : str) : str :=
  match fuel with
  | O => s
  | S f =>
    match s with
    | [] => []
    | c :: s' =>
      if prefixb old s
      then new ++ replace_fuel f old new (skipn (length old) s)
      else c :: replace_fuel f old new s'
    end
  end.

Definition replace (old new s : str) : str :=
  match old with
  | [] => new ++ flat_map (fun c => c :: new) s
  | _ :: _ => replace_fuel (length s) old new s
  end.

(** [re.sub(r"\s+", " ", s)]: [in_run] tells that the character before was
    white space, whose run has already produced its single space. *)
Fixpoint sub_spaces (in_run : bool) (s : str) : str :=
  match s with
  | [] => []
  | c :: s' =>
    if is_space c
    then (if in_run then sub_spaces true s' else SP :: sub_spaces true s')
    else c :: sub_spaces false s'
  end.

Fixpoint lstrip (s : str) : str :=
  match s with
  | [] => []
  | c :: s' => if is_space c then lstrip s' else s
  end.

Fixpoint rstrip (s : str) : str :=
  match s with
  | [] => []
  | c :: s' =>
    match rstrip s' with
    | [] => if is_space c then [] else [c]
    | r => c :: r
    end
  end.

(** [s.strip()] *)
Definition strip (s : str) : str := rstrip (lstrip s).

(** [re.sub] of a negated character class by the empty string keeps the
    characters of the class. *)
Definition keep (cls : ascii -> bool) (s : str) : str := filter cls s.

(** The position [$] of a pattern: the end of the string, or just before a
    line break that ends it. *)
Definition at_end (s : str) : bool :=
  match s with
  | [] => true
  | [c] => Ascii.eqb c NL
  | _ => false
  end.

Fixpoint span_digits (s : str) : str * str :=
  match s with
  | [] => ([], [])
  | c :: s' =>
    if is_digit c
    then let (d, r) := span_digits s' in (c :: d, r)
    else ([], s)
  end.

Definition nonempty (s : str) : bool :=
  match s with [] => false | _ :: _ => true end.

Fixpoint str_eqb (a b : str) : bool :=
  match a, b with
  | [], [] => true
  | x :: a', y :: b' => Ascii.eqb x y && str_eqb a' b'
  | _, _ => false
  end.

(** [p in s] *)
Fixpoint occurs (p s : str) : bool :=
  prefixb p s || match s with [] => false | _ :: s' => occurs p s' end.

Definition no_ws (p : str) : bool := forallb (fun c => negb (is_space c)) p.

Definition starts_ws (s : str) : bool :=
  match s with [] => false | c :: _ => is_space c end.

(** Every white-space character is a space that no white space follows. *)
Fixpoint ws_normal (s : str) : bool :=
  match s with
  | [] => true
  | c :: s' =>
    (if is_space c then Ascii.eqb c SP && negb (starts_ws s') else true)
    && ws_normal s'
  end.

Fixpoint ends_ws (s : str) : bool :=
  match s with
  | [] => false
  | [c] => is_space c
  | _ :: s' => ends_ws s'
  end.

End Str.

Import Str.

(** The artifact of a minus sign decoded with the wrong encoding. *)
Definition ARTIFACT : str := [chr 226; chr 136; chr 146].

(** [clean_colname] of src/app.py.  The labels of a frame read by [read_csv]
    are strings, so the [pd.isna] branch returns nothing else. *)
Definition clean_colname (s : str) : str :=
  let s := replace [NL] [SP] s in
  let s := replace ARTIFACT (lit "-") s in
  let s := replace (ARTIFACT ++ lit "15") (lit "-15") s in
  let s := replace (lit "Nov-15") (lit "11-15") s in
  let s := replace (lit "?") (lit "-") s in
  let s := sub_spaces false s in
  strip s.

(** ** Numbers *)

(** A finite decimal [mant * 10^(-scale)], kept with the least scale. *)
Record dec := Dec { mant : Z; scale : nat }.

Fixpoint normalize (m : Z) (k : nat) : dec :=
  match k with
  | O => Dec m 0
  | S k' => if (m mod 10 =? 0)%Z then normalize (m / 10) k' else Dec m k
  end.

Definition digit_val (c : ascii) : Z := Z.of_nat (ord c - 48).

(** One more digit to the right of a number. *)
Definition step (a : Z) (c : ascii) : Z := (10 * a + digit_val c)%Z.

Definition digits_val (ds : str) : Z := fold_left step ds 0%Z.

(** What the parser of [pd.to_numeric(..., errors="coerce")] makes of one
    string: NaN, a Python [int] (no decimal point seen) or a float. *)
Inductive parsed := PNaN | PInt (z : Z) | PFloat (d : dec).

(** The optional sign in front of a number. *)
Definition opt_sign (s : str) : bool * str :=
  match s with
  | c :: r' =>
    if Ascii.eqb c "-" then (true, r')
    else if Ascii.eqb c "+" then (false, r') else (false, s)
  | [] => (false, s)
  end.

(** The parser on the strings its two callers build, which hold digits,
    signs and points only: one optional sign, digits, an optional point
    followed by digits, at least one digit in all, and nothing after.
    The empty string is a missing value. *)
Definition to_numeric_str (s : str) : parsed :=
  let '(neg, r) := opt_sign s in
  let sgn (z : Z) := if neg then (- z)%Z else z in
  let (ds, r1) := span_digits r in
  match r1 with
  | [] => if nonempty ds then PInt (sgn (digits_val ds)) else PNaN
  | c :: r2 =>
    if Ascii.eqb c "." then
      let (fs, r3) := span_digits r2 in
      match r3 with
      | [] =>
        if nonempty ds || nonempty fs
        then PFloat (normalize (sgn (digits_val (ds ++ fs))) (length fs))
        else PNaN
      | _ :: _ => PNaN
      end
    else PNaN
  end.

(** [str] of a Python [int]. *)
Definition str_of_Z (z : Z) : str :=
  list_ascii_of_string (NilZero.string_of_int (Z.to_int z)).

Fixpoint drop_zeros (s : str) : str :=
  match s with
  | [] => []
  | c :: s' => if Ascii.eqb c "0" then drop_zeros s' else s
  end.

(** [str] of a float (the [repr] format): positional notation while the
    decimal point falls within the digits [-3 .. 16], the exponent form
    otherwise. *)
Definition float_str (d : dec) : str :=
  let m := mant d in
  if (m =? 0)%Z then lit "0.0" else
  let all := str_of_Z (Z.abs m) in
  let sig := rev (drop_zeros (rev all)) in
  let decpt := (Z.of_nat (length all) - Z.of_nat (scale d))%Z in
  let sign := if (m <? 0)%Z then lit "-" else [] in
  sign ++
  (if (decpt >? 16)%Z || (decpt <? -3)%Z then
     let e := (decpt - 1)%Z in
     let es := str_of_Z (Z.abs e) in
     firstn 1 sig
     ++ match skipn 1 sig with [] => [] | r => "."%char :: r end
     ++ lit "e" ++ (if (e <? 0)%Z then lit "-" else lit "+")
     ++ (if length es <? 2 then "0"%char :: es else es)
   else if (decpt <=? 0)%Z then
     lit "0." ++ repeat "0"%char (Z.to_nat (- decpt)) ++ sig
   else if (Z.of_nat (length sig) <=? decpt)%Z then
     sig ++ repeat "0"%char (Z.to_nat decpt - length sig) ++ lit ".0"
   else
     firstn (Z.to_nat decpt) sig ++ "."%char :: skipn (Z.to_nat decpt) sig).

(** ** Columns and frames *)

(** A cell of an object column: a string, or the missing value NaN. *)
Definition cell := option str.

Inductive column :=
| ObjectCol (cells : list cell)
| Int64Col (cells : list Z)
| Float64Col (cells : list (option dec))
| BoolCol (cells : list bool).

Definition col_len (c : column) : nat :=
  match c with
  | ObjectCol l => length l
  | Int64Col l => length l
  | Float64Col l => length l
  | BoolCol l => length l
  end.

Definition is_object (c : column) : bool :=
  match c with ObjectCol _ => true | _ => false end.

(** [series.astype(str)] *)
Definition astype_str (c : column) : list str :=
  match c with
  | ObjectCol l =>
    map (fun x => match x with Some s => s | None => lit "nan" end) l
  | Int64Col l => map str_of_Z l
  | Float64Col l =>
    map (fun x => match x with Some d => float_str d | None => lit "nan" end) l
  | BoolCol l => map (fun b : bool => if b then lit "True" else lit "False") l
  end.

Definition is_int (p : parsed) : bool :=
  match p with PInt _ => true | _ => false end.
Definition int_of (p : parsed) : Z :=
  match p with PInt z => z | _ => 0%Z end.
Definition float_of (p : parsed) : option dec :=
  match p with
  | PNaN => None
  | PInt z => Some (Dec z 0)
  | PFloat d => Some d
  end.

(** [pd.to_numeric(series, errors="coerce")] on a series of strings: int64
    when every string is an integer literal, float64 with NaN otherwise.
    The numbers are the exact ones: those of pandas for numerals of at most
    fifteen digits ([exact_text]); a longer numeral is rounded by pandas, and
    an integer beyond int64 leaves that dtype. *)
Definition to_numeric (l : list str) : column :=
  let ps := map to_numeric_str l in
  if forallb is_int ps then Int64Col (map int_of ps)
  else Float64Col (map float_of ps).

Inductive index :=
| RangeIndex (start stop : Z)
| Int64Index (vals : list Z)
| ObjectIndex (vals : list str).

Definition index_len (i : index) : nat :=
  match i with
  | RangeIndex a b => Z.to_nat (b - a)
  | Int64Index l => length l
  | ObjectIndex l => length l
  end.

Record DataFrame := Frame { df_index : index; df_columns : list (str * column) }.

Definition labels (df : DataFrame) : list str := map fst (df_columns df).

(** [len(df)] *)
Definition nrows (df : DataFrame) : nat := index_len (df_index df).

(** [df.empty]: some axis has length zero. *)
Definition empty (df : DataFrame) : bool :=
  (nrows df =? 0) || (length (df_columns df) =? 0).

(** [pd.DataFrame()] *)
Definition empty_frame : DataFrame := Frame (ObjectIndex []) [].

Inductive exn :=
| AttributeError | KeyError | ValueError
| UnicodeDecodeError | EmptyDataError | ParserError | OSError.

Inductive result (A : Type) := Ok (a : A) | Raise (e : exn).
Arguments Ok {A} a.
Arguments Raise {A} e.

Definition bind {A B} (r : result A) (k : A -> result B) : result B :=
  match r with Ok a => k a | Raise e => Raise e end.

Notation "x <- r ;; k" := (bind r (fun x => k))
  (at level 61, r at next level, right associativity).
Notation "' p <- r ;; k" := (bind r (fun x => match x with p => k end))
  (at level 61, p pattern, r at next level, right associativity).

(** [df[label]]: a series when one column carries the label, a frame when
    several do. *)
Inductive item := Series (c : column) | SubFrame (cs : list column) | NoItem.

Definition getitem (cols : list (str * column)) (l : str) : item :=
  match filter (fun lc => str_eqb (fst lc) l) cols with
  | [] => NoItem
  | [(_, c)] => Series c
  | many => SubFrame (map snd many)
  end.

(** [df[label].astype(str).str] and the series behind it; a frame has no
    attribute [str]. *)
Definition series_of (it : item) : result column :=
  match it with
  | Series c => Ok c
  | SubFrame _ => Raise AttributeError
  | NoItem => Raise KeyError
  end.

(** [df[label].dtype == object or ...] and the series behind it.  A frame
    has no attribute [dtype]; when the label is "dtype" itself the attribute
    is looked up among the columns and is a frame again, and it is the truth
    value of its comparison with [object] that raises. *)
Definition dtype_of (l : str) (it : item) : result column :=
  match it with
  | Series c => Ok c
  | SubFrame _ =>
    if str_eqb l (lit "dtype") then Raise ValueError else Raise AttributeError
  | NoItem => Raise KeyError
  end.

(** [df[label] = c] for a label that is present. *)
Definition setitem (cols : list (str * column)) (l : str) (c : column)
  : list (str * column) :=
  map (fun lc => if str_eqb (fst lc) l then (fst lc, c) else lc) cols.

(** [df.drop(columns=[label])] *)
Definition drop (cols : list (str * column)) (l : str) : list (str * column) :=
  filter (fun lc => negb (str_eqb (fst lc) l)) cols.

(** ** The normalizer *)

(** The class [[\d\.\-]], whose complement the match value loses. *)
Definition match_class (c : ascii) : bool :=
  is_digit c || Ascii.eqb c "." || Ascii.eqb c "-".

(** The class [[\d\-\+\.]] of the index conversion. *)
Definition index_class (c : ascii) : bool :=
  is_digit c || Ascii.eqb c "-" || Ascii.eqb c "+" || Ascii.eqb c ".".

(** The optional minus sign of the pattern below. *)
Definition opt_minus (s : str) : str :=
  match s with
  | c :: r' => if Ascii.eqb c "-" then r' else s
  | [] => s
  end.

(** [re.match(r"^-?\d+(\.\d+)?$", s)].  The digits are taken greedily: a
    shorter run is followed by a digit, where neither the point nor the end
    can match. *)
Definition matches_number (s : str) : bool :=
  let r := opt_minus s in
  let (ds, r1) := span_digits r in
  nonempty ds &&
  (at_end r1 ||
   match r1 with
   | c :: r2 =>
     Ascii.eqb c "." &&
     (let (fs, r3) := span_digits r2 in nonempty fs && at_end r3)
   | [] => false
   end).

(** [cleaned] and [cleaned_for_match] of the coercion loop. *)
Definition cleaned (c : column) : list str :=
  map (fun s => strip (replace (lit ",") [] s)) (astype_str c).

Definition cleaned_for_match (c : column) : list str :=
  map (keep match_class) (cleaned c).

Definition non_null (c : column) : list str :=
  filter nonempty (cleaned_for_match c).

Definition count_true (l : list bool) : nat := length (filter id l).

(** The body of the loop for one series. *)
Definition coerce_series (c : column) : column :=
  if is_object c then
    let nn := non_null c in
    if length nn =? 0 then c
    else
      let numeric_match := map matches_number nn in
      (* numeric_ratio >= 0.5, the mean being count / length *)
      if (length numeric_match <=? 2 * count_true numeric_match)
         || forallb id numeric_match
      then to_numeric (cleaned_for_match c)
      else c
  else c.

(** [for col in df.columns: ...], the frame being read and updated by
    label. *)
Fixpoint coerce_loop (ls : list str) (cols : list (str * column))
  : result (list (str * column)) :=
  match ls with
  | [] => Ok cols
  | l :: ls' =>
    c <- dtype_of l (getitem cols l) ;;
    coerce_loop ls' (setitem cols l (coerce_series c))
  end.

Definition eat_ci (p s : str) : option str :=
  if prefixb_ci p s then Some (skipn (length p) s) else None.

(** An optional point, then the rest [k] of the alternative. *)
Definition opt_dot (r : str) (k : str -> bool) : bool :=
  match r with
  | c :: r' => (Ascii.eqb c "." && k r') || k r
  | [] => k r
  end.

(** [index_like_pattern.match(s)]:
    [^(unnamed: 0|index|row|#|no\.?$|s no$|sr\.?n$|sr no$|id$)] under
    [re.IGNORECASE]. *)
Definition index_like_pattern (s : str) : bool :=
  prefixb_ci (lit "unnamed: 0") s
  || prefixb_ci (lit "index") s
  || prefixb_ci (lit "row") s
  || prefixb_ci (lit "#") s
  || match eat_ci (lit "no") s with
     | Some r => opt_dot r at_end | None => false end
  || match eat_ci (lit "s no") s with
     | Some r => at_end r | None => false end
  || match eat_ci (lit "sr") s with
     | Some r =>
       opt_dot r (fun r' =>
         match eat_ci (lit "n") r' with
         | Some r'' => at_end r'' | None => false end)
     | None => false end
  || match eat_ci (lit "sr no") s with
     | Some r => at_end r | None => false end
  || match eat_ci (lit "id") s with
     | Some r => at_end r | None => false end.

(** [conv]: the candidate column as text, reduced to the characters of
    [index_class] and parsed. *)
Definition conv (c : column) : column :=
  to_numeric (map (keep index_class) (astype_str c)).

(** [conv.notna().all()] *)
Definition notna_all (c : column) : bool :=
  match c with
  | ObjectCol l => forallb (fun x => match x with Some _ => true | None => false end) l
  | Int64Col _ => true
  | Float64Col l => forallb (fun x => match x with Some _ => true | None => false end) l
  | BoolCol _ => true
  end.

(** [((conv % 1) == 0).all()] on a numeric series; a decimal in least scale
    is whole when its scale is zero (and so is its double, for a decimal of
    at most fifteen digits). *)
Definition integer_like (c : column) : bool :=
  match c with
  | ObjectCol _ => false
  | Int64Col _ => true
  | Float64Col l =>
    forallb (fun x => match x with Some d => scale d =? 0 | None => false end) l
  | BoolCol _ => true
  end.

(** [conv.astype(int)], which truncates; within int64, where the cast
    does not wrap around. *)
Definition astype_int (c : column) : list Z :=
  match c with
  | ObjectCol l => map (fun _ => 0%Z) l
  | Int64Col l => l
  | Float64Col l =>
    map (fun x =>
      match x with
      | Some d => Z.quot (mant d) (10 ^ Z.of_nat (scale d))
      | None => 0%Z
      end) l
  | BoolCol l => map (fun b : bool => if b then 1%Z else 0%Z) l
  end.

(** [series.nunique()] *)
Definition nunique (l : list Z) : nat := length (nodup Z.eq_dec l).

(** The pandas the program runs on.  The last block of [clean_dataframe]
    names [pd.Int64Index], a class the 1.x series has and that is gone from
    2.0 on, where the name raises an [AttributeError]. *)
Inductive pandas := Pandas1 | Pandas2.

Definition has_Int64Index (v : pandas) : bool :=
  match v with Pandas1 => true | Pandas2 => false end.

(** The last block of [clean_dataframe]: a range index is replaced by the
    range from 1; for any other index [pd.Int64Index] is looked up, and
    then an integer index is left and any other one replaced. *)
Definition final_index (v : pandas) (i : index) (n : nat) : result index :=
  match i with
  | RangeIndex _ _ => Ok (RangeIndex 1 (Z.of_nat n + 1))
  | Int64Index l =>
    if has_Int64Index v then Ok (Int64Index l) else Raise AttributeError
  | ObjectIndex _ =>
    if has_Int64Index v then Ok (RangeIndex 1 (Z.of_nat n + 1))
    else Raise AttributeError
  end.

Definition drop_unnamed (cols : list (str * column)) : list (str * column) :=
  filter (fun lc => negb (prefixb (lit "Unnamed") (fst lc))) cols.

(** The block of [clean_dataframe] after [reset_index(drop=True)], on the
    [n] rows and the coerced columns: the row index and the columns it
    leaves.  [idx] is the range index the reset has just made. *)
Definition index_like_step (n : nat) (cols : list (str * column))
  : result (index * list (str * column)) :=
  let idx := RangeIndex 0 (Z.of_nat n) in
  let index_like_col :=
    find (fun l => index_like_pattern (strip l)) (map fst cols) in
  match index_like_col with
  | Some l =>
    if nonempty l then
      c <- series_of (getitem cols l) ;;
      let cv := conv c in
      if notna_all cv
      then
        if integer_like cv && (nunique (astype_int cv) =? n)
        then Ok (Int64Index (astype_int cv), drop cols l)
        else Ok (idx, cols)
      else Ok (idx, cols)
    else Ok (idx, cols)
  | None => Ok (idx, cols)
  end.

Definition clean_dataframe (v : pandas) (df : DataFrame) : result DataFrame :=
  if empty df then Ok empty_frame
  else
    (* clean column names *)
    let cols :=
      map (fun lc => (clean_colname (fst lc), snd lc)) (df_columns df) in
    (* drop unnamed columns *)
    let cols := drop_unnamed cols in
    (* coerce numeric-like columns *)
    cols <- coerce_loop (map fst cols) cols ;;
    (* the index-like column, if one is usable *)
    let n := nrows df in
    '(idx, cols) <- index_like_step n cols ;;
    (* a range index becomes the range from 1 *)
    idx <- final_index v idx n ;;
    Ok (Frame idx cols).

(** ** Loading *)

Inductive encoding := Utf8 | Latin1.

(** The outside of [load_csv]: which paths exist, and what [pd.read_csv]
    returns or raises for a path under an encoding. *)
Record file_system := FS {
  path_exists : str -> bool;
  read_csv : str -> encoding -> result DataFrame
}.

(** [load_csv], with the list of the encodings [read_csv] was called
    with. *)
Definition load_csv (v : pandas) (fs : file_system) (file_name : str)
  : result DataFrame * list encoding :=
  if negb (path_exists fs file_name) then (Ok empty_frame, [])
  else
    match read_csv fs file_name Utf8 with
    | Ok df => (clean_dataframe v df, [Utf8])
    | Raise _ =>
      match read_csv fs file_name Latin1 with
      | Ok df => (clean_dataframe v df, [Utf8; Latin1])
      | Raise _ => (Ok empty_frame, [Utf8; Latin1])
      end
    end.

(** ** Views of a table *)

(** The values of a row index, one per row. *)
Inductive key := IntKey (z : Z) | StrKey (s : str).

Definition index_values (i : index) : list key :=
  match i with
  | RangeIndex a b =>
    map (fun k => IntKey (a + Z.of_nat k)) (seq 0 (Z.to_nat (b - a)))
  | Int64Index l => map IntKey l
  | ObjectIndex l => map StrKey l
  end.

(** The numbers of a numeric column, [None] for null; an object or a
    boolean column has none. *)
Definition numeric_values (c : column) : option (list (option dec)) :=
  match c with
  | ObjectCol _ => None
  | Int64Col l => Some (map (fun z => Some (Dec z 0)) l)
  | Float64Col l => Some l
  | BoolCol _ => None
  end.

(** A frame whose columns all have the length of its index. *)
Definition well_formed (df : DataFrame) : Prop :=
  Forall (fun lc => col_len (snd lc) = nrows df) (df_columns df).

(** ** The range in which the numbers are exact

    The model computes with exact integers and decimals.  It agrees with
    int64 and float64 on the tables below: an int64 cell lies within int64;
    a text cell has at most fifteen digits, so that the number it is parsed
    to is an int64, or a double that is the nearest one to the numeral,
    is printed as the numeral, is whole when the numeral is, and differs
    from the double of every other such numeral; a float64 cell is such a
    double.  Outside of this range the statements on the values of a
    converted column and on the outcome of the index conversion are not
    made. *)
Definition int64_range (z : Z) : bool :=
  ((- 2 ^ 63 <=? z) && (z <? 2 ^ 63))%Z.

Definition count_digits (s : str) : nat := length (filter is_digit s).

Definition exact_text (s : str) : bool := count_digits s <=? 15.

Definition exact_dec (d : dec) : bool :=
  (Z.abs (mant d) <? 10 ^ 15)%Z && (scale d <=? 300).

Definition exact_column (c : column) : bool :=
  match c with
  | ObjectCol l =>
    forallb (fun x => match x with Some s => exact_text s | None => true end) l
  | Int64Col l => forallb int64_range l
  | Float64Col l =>
    forallb (fun x => match x with Some d => exact_dec d | None => true end) l
  | BoolCol _ => true
  end.

Definition exact_frame (df : DataFrame) : bool :=
  forallb (fun lc => exact_column (snd lc)) (df_columns df).

Definition text (l : list string) : column :=
  ObjectCol (map (fun s => Some (list_ascii_of_string s)) l).

(** ** The claims' vocabulary *)

(** Header cleaning in the order the specification lists its steps: line
    breaks, runs of white space, the literal substitutions, the trim. *)
Definition clean_colname_spec (s : str) : str :=
  let s := replace [NL] [SP] s in
  let s := sub_spaces false s in
  let s := replace ARTIFACT (lit "-") s in
  let s := replace (ARTIFACT ++ lit "15") (lit "-15") s in
  let s := replace (lit "Nov-15") (lit "11-15") s in
  let s := replace (lit "?") (lit "-") s in
  strip s.

(** The match value of a cell: thousands separators and surrounding white
    space stripped, then everything but digits, minus and point removed. *)
Definition match_value (x : cell) : str :=
  let s := match x with Some s => s | None => lit "nan" end in
  keep match_class (strip (replace (lit ",") [] s)).

(** The shape [-?digits(.digits)?]. *)
Definition looks_numeric (s : str) : Prop :=
  exists sign ds frac,
    s = sign ++ ds ++ frac
    /\ (sign = [] \/ sign = lit "-")
    /\ ds <> [] /\ forallb is_digit ds = true
    /\ (frac = [] \/
        exists fs, frac = "."%char :: fs /\ fs <> [] /\ forallb is_digit fs = true).

(** The characters of a decimal numeral. *)
Definition uchars (d : Decimal.uint) : str :=
  list_ascii_of_string (NilEmpty.string_of_uint d).

(** The columns under their cleaned labels. *)
Definition renamed (df : DataFrame) : list (str * column) :=
  map (fun lc => (clean_colname (fst lc), snd lc)) (df_columns df).

(** The columns the index step looks at: labels cleaned, unnamed columns
    removed, every column through the coercion. *)
Definition prepared (df : DataFrame) : list (str * column) :=
  map (fun lc => (fst lc, coerce_series (snd lc))) (drop_unnamed (renamed df)).

(** What one turn of the loop does to a column. *)
Definition upd (l : str) (lc : str * column) : str * column :=
  if str_eqb (fst lc) l then (fst lc, coerce_series (snd lc)) else lc.

(** How many columns carry a label. *)
Definition count_label (l : str) (cols : list (str * column)) : nat :=
  length (filter (fun lc => str_eqb (fst lc) l) cols).

(** The three tests on the converted candidate column. *)
Definition adoptable (n : nat) (c : column) : bool :=
  let cv := conv c in
  notna_all cv && integer_like cv && (nunique (astype_int cv) =? n).

(** The whole number a parsed cell stands for, if any. *)
Definition whole_of (p : parsed) : option Z :=
  match p with
  | PNaN => None
  | PInt z => Some z
  | PFloat d => if scale d =? 0 then Some (mant d) else None
  end.

Definition is_whole (p : parsed) : bool :=
  match whole_of p with Some _ => true | None => false end.

(** The first column, from the left, whose label looks like an index. *)
Definition candidate (cols : list (str * column)) : option str :=
  find (fun l => index_like_pattern (strip l)) (map fst cols).

(** The cell text [s], reduced to digits, signs and points, parses to the
    whole number [z]. *)
Definition index_value (s : str) (z : Z) : Prop :=
  let p := to_numeric_str (keep index_class s) in
  p = PInt z \/ p = PFloat (Dec z 0).

(** Every cell of the column gives a whole number, and no two cells the
    same one. *)
Definition index_values_of (c : column) (ints : list Z) : Prop :=
  Forall2 index_value (astype_str c) ints /\ NoDup ints.

(** [1; 2; ...; n] *)
Definition one_based (n : nat) : list key :=
  map (fun k => IntKey (Z.of_nat k)) (seq 1 n).

(** Two tables with the same columns and the same values of the row
    index. *)
Definition same_table (a b : DataFrame) : Prop :=
  df_columns a = df_columns b
  /\ index_values (df_index a) = index_values (df_index b).

(** ** Sample tables *)

Definition population_column : column := text ["1,234"; "5,678"; ""]%string.
Definition states_column : column := text ["Alabama"; "Alaska"; "1"]%string.
Definition x1_column : column := text ["1"; "2"; "x1"]%string.

(** An index-like column [id] holding 3, 1, 2 next to a text column. *)
Definition indexed_frame : DataFrame :=
  Frame (RangeIndex 0 3)
    [(lit "id", Int64Col [3; 1; 2]%Z);
     (lit "State", text ["Ohio"; "Utah"; "Iowa"]%string)].

(** The header [A,A ] of a file: two labels that clean to [A]. *)
Definition duplicate_frame : DataFrame :=
  Frame (RangeIndex 0 2)
    [(lit "A", text ["x"; "y"]%string); (lit "A ", Int64Col [1; 2]%Z)].


Definition unnamed_frame : DataFrame :=
  Frame (RangeIndex 0 3)
    [(lit "Unnamed: 0", Int64Col [3; 1; 2]%Z);
     (lit "State", text ["Ohio"; "Utah"; "Iowa"]%string)].

Definition population_frame : DataFrame :=
  Frame (RangeIndex 0 3)
    [(lit "State", text ["Ohio"; "Utah"; "Iowa"]%string);
     (lit "Population1", population_column)].

Definition states_frame : DataFrame :=
  Frame (RangeIndex 0 3) [(lit "State", states_column)].

(** A file system with the one file [a.csv], whose header is [A,A ]. *)
Definition duplicate_fs : file_system :=
  FS (fun p => str_eqb p (lit "a.csv")) (fun _ _ => Ok duplicate_frame).

(** A file that no encoding decodes. *)
Definition unreadable_fs : file_system :=
  FS (fun _ => true)
     (fun _ e => match e with
                 | Utf8 => Raise UnicodeDecodeError
                 | Latin1 => Raise ParserError
                 end).

(** A file that only the fallback encoding decodes. *)
Definition latin1_fs : file_system :=
  FS (fun _ => true)
     (fun _ e => match e with
                 | Utf8 => Raise UnicodeDecodeError
                 | Latin1 => Ok population_frame
                 end).

Definition missing_fs : file_system :=
  FS (fun _ => false) (fun _ _ => Raise OSError).

(** ** Names of columns, compared loosely *)

(** [str.lower] on one character of the range: the letters A-Z and the
    accented capitals 192-222, the sign 215 apart, move up by 32. *)
Definition py_lower (c : ascii) : ascii :=
  let n := ord c in
  if ((65 <=? n) && (n <=? 90))
     || ((192 <=? n) && (n <=? 222) && negb (n =? 215))
  then chr (n + 32) else c.

(** The class [[0-9a-z]]. *)
Definition is_lower_alnum (c : ascii) : bool :=
  let n := ord c in
  ((48 <=? n) && (n <=? 57)) || ((97 <=? n) && (n <=? 122)).

(** The class [[a-z]]. *)
Definition is_lower_az (c : ascii) : bool :=
  let n := ord c in (97 <=? n) && (n <=? 122).

(** [_normalize_col_name].  Its first substitution turns the en and em
    dashes, code points above the range, into "-"; the second one removes
    "-" like every character outside [[0-9a-z]]. *)
Definition _normalize_col_name (s : option str) : str :=
  match s with
  | None => []
  | Some s => keep is_lower_alnum (map py_lower s)
  end.

Definition HIDDEN_COLUMN_NAMES : list str :=
  map list_ascii_of_string
    ["State";
     "Agency Type";
     "Agency Name";
     "Population1";
     "Total Offenses";
     "Crimes Against Persons";
     "Crimes Against Property";
     "Crimes Against Society";
     "Assault Offenses";
     "Aggravated Assault";
     "Simple Assault";
     "Intimidation";
     "Homicide Offenses";
     "Murder and Nonnegligent Manslaughter";
     "Negligent Man- slaughter";
     "Justifiable Homicide";
     "Human Trafficking Offenses";
     "Commercial Sex Acts";
     "Involuntary Servitude";
     "Kidnapping/ Abduction";
     "Sex Offenses";
     "Rape";
     "Sodomy";
     "Sexual Assault With an Object";
     "Criminal Sexual Contact2";
     "Incest";
     "Statutory Rape";
     "Arson";
     "Bribery";
     "Burglary/ Breaking & Entering";
     "Counter- feiting/ Forgery";
     "Destruction/ Damage/ Vandalism of Property";
     "Embezzle- ment";
     "Extortion/ Blackmail";
     "Fraud Offenses";
     "False Pretenses/ Swindle/ Confidence Game";
     "Credit Card/ Automated Teller Machine Fraud";
     "Imper- sonation";
     "Welfare Fraud";
     "Wire Fraud";
     "Identity Theft";
     "Hacking/ Computer Invasion";
     "Larceny/ Theft Offenses";
     "Pocket- picking";
     "Purse- snatching";
     "Shop- lifting";
     "Theft From Building";
     "Theft From Coin Op- erated Machine or Device";
     "Theft From Motor Vehicle";
     "Theft of Motor Vehicle Parts or Acces- sories";
     "All Other Larceny";
     "Motor Vehicle Theft";
     "Robbery";
     "Stolen Property Offenses";
     "Animal Cruelty";
     "Drug/ Narcotic Offenses";
     "Drug/ Narcotic Violations";
     "Drug Equipment Violations";
     "Gambling Offenses";
     "Betting/ Wagering";
     "Operating/ Promoting/ Assisting Gambling";
     "Gambling Equipment Violations";
     "Sports Tampering";
     "Por- nography/ Obscene Material";
     "Pros- titution Offenses";
     "Pros- titution";
     "Assisting or Promoting Prostitution";
     "Purchasing Prostitution";
     "Weapon Law Violations"]%string.

Definition HIDDEN_SET : list str :=
  map (fun c => _normalize_col_name (Some c)) HIDDEN_COLUMN_NAMES.

Definition mem (x : str) (l : list str) : bool := existsb (str_eqb x) l.

(** [visible_cols] of [agency_table_with_filters]: the columns that are not
    hidden, or all the columns when every one of them is hidden. *)
Definition visible_cols (columns : list str) : list str :=
  let visible :=
    filter (fun c => negb (mem (_normalize_col_name (Some c)) HIDDEN_SET))
      columns in
  match visible with
  | [] => columns
  | _ :: _ => visible
  end.

(** ** Pages of the agency table *)

(** The two entries of [st.session_state] the page logic reads and
    writes. *)
Record session := Session { agency_page : Z; agency_page_size : Z }.

Definition page_size_options : list Z := [10; 20; 50; 100]%Z.

(** A bound of a Python slice, on a sequence of [len] items. *)
Definition slice_bound (len i : Z) : Z :=
  if (i <? 0)%Z then Z.max (i + len) 0 else Z.min i len.

(** [rows.iloc[start:stop]] *)
Definition iloc (A : Type) (rows : list A) (start stop : Z) : list A :=
  let len := Z.of_nat (length rows) in
  let a := slice_bound len start in
  let b := slice_bound len stop in
  firstn (Z.to_nat (b - a)) (skipn (Z.to_nat a) rows).

(** What the page block leaves: the session, the number of pages, the two
    bounds and, when there are rows, the page with its row index. *)
Record page_view (A : Type) := PageView {
  pv_session : session;
  total_pages : Z;
  start_idx : Z;
  end_idx : Z;
  page_df : option (index * list A)
}.

(** The block "Fixed Pagination Logic" of [agency_table_with_filters]. *)
Definition paginate (A : Type) (st : session) (display_filtered : list A)
  : page_view A :=
  let total_rows := Z.of_nat (length display_filtered) in
  let page_size_val :=
    if existsb (Z.eqb (agency_page_size st)) page_size_options
    then agency_page_size st else 20%Z in
  let st := Session (agency_page st) page_size_val in
  let total_pages :=
    Z.max 1 ((total_rows + page_size_val - 1) / page_size_val) in
  let st :=
    if (agency_page st <? 1)%Z then Session 1 (agency_page_size st) else st in
  let st :=
    if (agency_page st >? total_pages)%Z
    then Session total_pages (agency_page_size st) else st in
  let start_idx := ((agency_page st - 1) * page_size_val)%Z in
  let end_idx := Z.min (start_idx + page_size_val) total_rows in
  let page_df :=
    if (total_rows >? 0)%Z then
      let rows := iloc display_filtered start_idx end_idx in
      Some (RangeIndex (start_idx + 1)
              (start_idx + 1 + Z.of_nat (length rows)), rows)
    else None in
  PageView st total_pages start_idx end_idx page_df.

(** ** States on the map *)

(** A value of a cell, as [Series.apply] hands it to a function. *)
Inductive scalar :=
| SStr (s : str) | SNaN | SInt (z : Z) | SFloat (d : dec) | SBool (b : bool).

(** [str(val)] *)
Definition scalar_str (v : scalar) : str :=
  match v with
  | SStr s => s
  | SNaN => lit "nan"
  | SInt z => str_of_Z z
  | SFloat d => float_str d
  | SBool b => if b then lit "True" else lit "False"
  end.

(** The cells of a column as values. *)
Definition scalars (c : column) : list scalar :=
  match c with
  | ObjectCol l => map (fun x => match x with Some s => SStr s | None => SNaN end) l
  | Int64Col l => map SInt l
  | Float64Col l => map (fun x => match x with Some d => SFloat d | None => SNaN end) l
  | BoolCol l => map SBool l
  end.

(** [str.isalpha] on one character of the range. *)
Definition is_alpha (c : ascii) : bool :=
  let n := ord c in
  ((65 <=? n) && (n <=? 90)) || ((97 <=? n) && (n <=? 122))
  || (n =? 170) || (n =? 181) || (n =? 186)
  || ((192 <=? n) && (n <=? 214)) || ((216 <=? n) && (n <=? 246))
  || ((248 <=? n) && (n <=? 255)).

(** A string that may leave the range, as its code points. *)
Definition code_points := list N.

Definition cps (s : str) : code_points := map (fun c => N.of_nat (ord c)) s.

(** [str.upper] on one character of the range: "ß" becomes "SS", "ÿ" and
    "µ" leave the range. *)
Definition upper_cp (c : ascii) : code_points :=
  let n := ord c in
  if ((97 <=? n) && (n <=? 122))
     || ((224 <=? n) && (n <=? 254) && negb (n =? 247))
  then [N.of_nat (n - 32)]
  else if n =? 223 then [83; 83]%N
  else if n =? 255 then [376]%N
  else if n =? 181 then [924]%N
  else [N.of_nat n].

Definition state_map_simple : list (str * str) :=
  map (fun kv : string * string =>
         (list_ascii_of_string (fst kv), list_ascii_of_string (snd kv)))
    [("alabama", "AL");
     ("alaska", "AK");
     ("arizona", "AZ");
     ("arkansas", "AR");
     ("california", "CA");
     ("colorado", "CO");
     ("connecticut", "CT");
     ("delaware", "DE");
     ("florida", "FL");
     ("georgia", "GA");
     ("hawaii", "HI");
     ("idaho", "ID");
     ("illinois", "IL");
     ("indiana", "IN");
     ("iowa", "IA");
     ("kansas", "KS");
     ("kentucky", "KY");
     ("louisiana", "LA");
     ("maine", "ME");
     ("maryland", "MD");
     ("massachusetts", "MA");
     ("michigan", "MI");
     ("minnesota", "MN");
     ("mississippi", "MS");
     ("missouri", "MO");
     ("montana", "MT");
     ("nebraska", "NE");
     ("nevada", "NV");
     ("new hampshire", "NH");
     ("new jersey", "NJ");
     ("new mexico", "NM");
     ("new york", "NY");
     ("north carolina", "NC");
     ("north dakota", "ND");
     ("ohio", "OH");
     ("oklahoma", "OK");
     ("oregon", "OR");
     ("pennsylvania", "PA");
     ("rhode island", "RI");
     ("south carolina", "SC");
     ("south dakota", "SD");
     ("tennessee", "TN");
     ("texas", "TX");
     ("utah", "UT");
     ("vermont", "VT");
     ("virginia", "VA");
     ("washington", "WA");
     ("west virginia", "WV");
     ("wisconsin", "WI");
     ("wyoming", "WY");
     ("district of columbia", "DC")]%string.

(** [state_map_simple.get(key, None)] *)
Definition state_map_get (key : str) : option str :=
  match find (fun kv => str_eqb (fst kv) key) state_map_simple with
  | Some kv => Some (snd kv)
  | None => None
  end.

Definition two_letters (s : str) : bool :=
  (length s =? 2) && forallb is_alpha s.

(** [maybe_state_code] of [plot_state_heatmap] *)
Definition maybe_state_code (val : scalar) : code_points :=
  let s := strip (scalar_str val) in
  if two_letters s then flat_map upper_cp s else cps s.

(** [to_code] of [plot_state_heatmap] *)
Definition to_code (val : scalar) : option code_points :=
  match val with
  | SNaN => None
  | _ =>
    let s := strip (scalar_str val) in
    if two_letters s then Some (flat_map upper_cp s)
    else
      let key := keep is_lower_az (map py_lower s) in
      option_map cps (state_map_get key)
  end.

(** The search for [state_col] in [plot_state_heatmap]. *)
Definition find_state_col (columns : list str) : option str :=
  match find (fun c => str_eqb (map py_lower (strip c)) (lit "state")) columns with
  | Some c => Some c
  | None => find (fun c => occurs (lit "state") (map py_lower c)) columns
  end.

Definition agency_candidates : list str :=
  map list_ascii_of_string
    ["Number of Participating Agencies"; "Population Covered"; "Population";
     "Number of Agencies"; "Participating Agencies"; "Agencies"]%string.

(** [df.select_dtypes(include="number").columns.tolist()] *)
Definition numeric_cols (cols : list (str * column)) : list str :=
  map fst
    (filter (fun lc =>
       match snd lc with Int64Col _ | Float64Col _ => true | _ => false end)
       cols).

(** The loop over the candidates: the first candidate that some label
    equals, case apart, gives the first such label. *)
Fixpoint first_candidate (cands : list str) (columns : list str) : option str :=
  match cands with
  | [] => None
  | cand :: rest =>
    match find (fun c => str_eqb (map py_lower cand) (map py_lower c)) columns with
    | Some c => if nonempty c then Some c else first_candidate rest columns
    | None => first_candidate rest columns
    end
  end.

(** The search for [agencies_col] in [plot_state_heatmap]. *)
Definition find_agencies_col (cols : list (str * column)) : option str :=
  match first_candidate agency_candidates (map fst cols) with
  | Some c => Some c
  | None =>
    match numeric_cols cols with
    | c :: _ => Some c
    | [] => None
    end
  end.

(** The cleaned labels of the columns the normalizer keeps, in the order
    of the columns. *)
Definition kept_labels (df : DataFrame) : list str :=
  filter (fun x => negb (prefixb (lit "Unnamed") x))
    (map clean_colname (labels df)).

(** ** Texts that cannot overlap *)

(** No suffix of [q] that is not empty can begin where [new] begins: the
    one is no prefix of the other. *)
Fixpoint apart (q new : str) : bool :=
  match q with
  | [] => true
  | _ :: q' => negb (prefixb q new || prefixb new q) && apart q' new
  end.

(** * Properties *)

(** ** Strings *)

Section StringFacts.

Lemma filter_all (A : Type) (f : A -> bool) (l : list A) :
  (forall x, In x l -> f x = true) -> filter f l = l.
Proof.
  induction l as [|a l IH]; [reflexivity|]. intros H. simpl.
  rewrite (H a (or_introl eq_refl)). f_equal. apply IH.
  intros x Hx. apply H. now right.
Qed.

Lemma str_eqb_eq (a b : str) : str_eqb a b = true <-> a = b.
Proof.
  revert b; induction a as [|x a IH]; intros [|y b]; simpl;
    try (split; [discriminate | discriminate]); try tauto.
  rewrite andb_true_iff, Ascii.eqb_eq, IH.
  split; [intros [-> ->]; reflexivity | intros H; inversion H; auto].
Qed.

Lemma str_eqb_refl (a : str) : str_eqb a a = true.
Proof. apply str_eqb_eq; reflexivity. Qed.

Lemma str_eqb_neq (a b : str) : str_eqb a b = false <-> a <> b.
Proof.
  rewrite <- str_eqb_eq. destruct (str_eqb a b); split; congruence.
Qed.

Lemma prefixb_cons (a : ascii) (q : str) (c : ascii) (s : str) :
  prefixb (a :: q) (c :: s) = true <-> a = c /\ prefixb q s = true.
Proof. cbn [prefixb]. now rewrite andb_true_iff, Ascii.eqb_eq. Qed.

Lemma prefixb_app (p s : str) : prefixb p (p ++ s) = true.
Proof.
  induction p as [|a p IH]; simpl; auto.
  now rewrite Ascii.eqb_refl.
Qed.

Lemma prefixb_split (p s : str) :
  prefixb p s = true -> s = p ++ skipn (length p) s.
Proof.
  revert s; induction p as [|a p IH]; intros [|b s]; simpl; try discriminate; auto.
  rewrite andb_true_iff, Ascii.eqb_eq. intros [-> H]. f_equal; auto.
Qed.

Lemma prefixb_app_l (p q s : str) :
  prefixb (p ++ q) s = true -> prefixb p s = true.
Proof.
  revert s; induction p as [|a p IH]; intros [|b s]; simpl; try discriminate; auto.
  rewrite !andb_true_iff. intros [-> H]; eauto.
Qed.

(** The fuel of [replace] is enough as soon as it covers the string. *)
Lemma replace_fuel_enough (old new : str) :
  old <> [] ->
  forall f1 f2 s, length s <= f1 -> length s <= f2 ->
    replace_fuel f1 old new s = replace_fuel f2 old new s.
Proof.
  intros Hold f1; induction f1 as [|f1 IH]; intros f2 s H1 H2.
  - destruct s; simpl in H1; [|lia]. destruct f2; reflexivity.
  - destruct f2 as [|f2].
    + destruct s; simpl in H2; [reflexivity | lia].
    + destruct s as [|c s']; [reflexivity|]. cbn [replace_fuel].
      destruct (prefixb old (c :: s')) eqn:Hp.
      * f_equal. destruct old as [|o old']; [congruence|].
        simpl in H1, H2. cbn [length skipn].
        pose proof (length_skipn (length old') s').
        apply IH; lia.
      * f_equal. simpl in H1, H2. apply IH; lia.
Qed.

Lemma replace_nil (old new : str) : old <> [] -> replace old new [] = [].
Proof. destruct old; [congruence | reflexivity]. Qed.

Lemma replace_hit (old new : str) (c : ascii) (s : str) :
  old <> [] -> prefixb old (c :: s) = true ->
  replace old new (c :: s)
  = new ++ replace old new (skipn (length old) (c :: s)).
Proof.
  intros Hold Hp. unfold replace. destruct old as [|o old']; [congruence|].
  cbn [length replace_fuel]. rewrite Hp. f_equal.
  apply replace_fuel_enough; [congruence | |lia].
  cbn [length skipn]. pose proof (length_skipn (length old') s). lia.
Qed.

Lemma replace_miss (old new : str) (c : ascii) (s : str) :
  old <> [] -> prefixb old (c :: s) = false ->
  replace old new (c :: s) = c :: replace old new s.
Proof.
  intros Hold Hp. unfold replace. destruct old as [|o old']; [congruence|].
  cbn [length replace_fuel]. rewrite Hp. reflexivity.
Qed.

(** Induction along the scan of [replace]. *)
Lemma replace_scan_ind (old : str) (P : str -> Prop) :
  old <> [] ->
  P [] ->
  (forall c s, prefixb old (c :: s) = true ->
     P (skipn (length old) (c :: s)) -> P (c :: s)) ->
  (forall c s, prefixb old (c :: s) = false -> P s -> P (c :: s)) ->
  forall s, P s.
Proof.
  intros Hold Hnil Hhit Hmiss s.
  remember (length s) as n eqn:Hn. revert s Hn.
  induction n as [n IH] using lt_wf_ind. intros [|c s] Hn; [exact Hnil|].
  destruct (prefixb old (c :: s)) eqn:Hp.
  - apply Hhit; [exact Hp|]. eapply IH; [|reflexivity].
    destruct old as [|o old']; [congruence|]. cbn [length skipn] in *.
    pose proof (length_skipn (length old') s). lia.
  - apply Hmiss; [exact Hp|]. eapply IH; [|reflexivity]. simpl in Hn; lia.
Qed.

End StringFacts.

Section Occurrences.

Lemma occurs_cons (p : str) (c : ascii) (s : str) :
  occurs p (c :: s) = prefixb p (c :: s) || occurs p s.
Proof. reflexivity. Qed.

Lemma occurs_tail (p : str) (c : ascii) (s : str) :
  occurs p s = true -> occurs p (c :: s) = true.
Proof. intros H. rewrite occurs_cons, H. apply orb_true_r. Qed.

Lemma occurs_app_r (p a s : str) :
  occurs p s = true -> occurs p (a ++ s) = true.
Proof. induction a; simpl app; auto using occurs_tail. Qed.

Lemma prefixb_app_r (p s t : str) :
  prefixb p s = true -> prefixb p (s ++ t) = true.
Proof.
  revert s; induction p as [|a p IH]; intros [|b s]; simpl; try discriminate; auto.
  rewrite !andb_true_iff. intros [-> H]; auto.
Qed.

Lemma occurs_app_l (p s t : str) :
  occurs p s = true -> occurs p (s ++ t) = true.
Proof.
  induction s as [|c s IH].
  - simpl. rewrite orb_false_r. destruct p; [|discriminate].
    intros _. destruct t; reflexivity.
  - simpl app. rewrite !occurs_cons, !orb_true_iff.
    intros [H|H]; [left; apply (prefixb_app_r _ (c :: s) t H) | right; auto].
Qed.

Lemma occurs_skipn (p : str) (n : nat) (s : str) :
  occurs p (skipn n s) = true -> occurs p s = true.
Proof.
  intros H. rewrite <- (firstn_skipn n s). now apply occurs_app_r.
Qed.

Lemma prefixb_incl (p s : str) : prefixb p s = true -> incl p s.
Proof.
  revert s; induction p as [|a p IH]; intros s.
  - intros _ x [].
  - destruct s as [|b s]; simpl; [discriminate|].
    rewrite andb_true_iff, Ascii.eqb_eq. intros [-> H] x [<-|Hx];
      [left; reflexivity | right; eapply IH; eauto].
Qed.

Lemma occurs_incl (p s : str) : occurs p s = true -> incl p s.
Proof.
  induction s as [|c s IH].
  - simpl. rewrite orb_false_r. apply prefixb_incl.
  - rewrite occurs_cons, orb_true_iff. intros [H|H].
    + now apply prefixb_incl.
    + intros x Hx. right. now apply IH.
Qed.

Lemma occurs_prefix_of (p q s : str) :
  occurs (p ++ q) s = true -> occurs p s = true.
Proof.
  induction s as [|c s IH].
  - simpl. rewrite !orb_false_r. destruct p; [reflexivity | discriminate].
  - rewrite !occurs_cons, !orb_true_iff. intros [H|H].
    + left. eapply prefixb_app_l; eauto.
    + right; auto.
Qed.

(** A string in which [old] does not occur is left as it is. *)
Lemma replace_absent (old new s : str) :
  old <> [] -> occurs old s = false -> replace old new s = s.
Proof.
  intros Hold. induction s as [|c s IH].
  - intros _. now apply replace_nil.
  - rewrite occurs_cons, orb_false_iff. intros [Hp Ho].
    rewrite replace_miss by assumption. f_equal; auto.
Qed.

Lemma replace_app_hit (old new s : str) :
  old <> [] -> replace old new (old ++ s) = new ++ replace old new s.
Proof.
  intros Hold. destruct old as [|o old']; [congruence|].
  change ((o :: old') ++ s) with (o :: (old' ++ s)).
  rewrite replace_hit; [|congruence|apply (prefixb_app (o :: old') s)].
  do 2 f_equal. cbn [length skipn].
  clear. induction old'; simpl; auto.
Qed.

Section Fresh.

(** [new] is not empty and none of its characters is a character of [p]. *)
Variables (p old new : str).
Hypothesis Hold : old <> [].
Hypothesis Hnew : new <> [].
Hypothesis Hfresh : forall x, In x new -> ~ In x p.

Lemma prefixb_fresh_false (q t : str) :
  q <> [] -> incl q p -> prefixb q (new ++ t) = false.
Proof using Hnew Hfresh.
  intros Hq Hincl. destruct q as [|a q]; [congruence|].
  destruct new as [|x new'] eqn:E; [congruence|]. simpl.
  destruct (Ascii.eqb a x) eqn:Hax; [|reflexivity].
  apply Ascii.eqb_eq in Hax; subst a. exfalso.
  apply (Hfresh x); [left; reflexivity | apply Hincl; left; reflexivity].
Qed.

(** A prefix found after the replacement was a prefix before it. *)
Lemma prefixb_replace_reflect (q s : str) :
  incl q p -> prefixb q (replace old new s) = true -> prefixb q s = true.
Proof using Hold Hnew Hfresh.
  revert s. induction q as [|a q IH]; intros s Hincl; [reflexivity|].
  destruct s as [|c s].
  - rewrite replace_nil by assumption. discriminate.
  - destruct (prefixb old (c :: s)) eqn:Hp.
    + rewrite replace_hit by assumption.
      rewrite prefixb_fresh_false; [discriminate | discriminate | assumption].
    + rewrite replace_miss by assumption. rewrite !prefixb_cons.
      intros [-> H]. split; [reflexivity|].
      apply IH; [|assumption]. intros x Hx; apply Hincl; now right.
Qed.

Lemma occurs_fresh_app (t : str) :
  p <> [] -> occurs p (new ++ t) = occurs p t.
Proof using Hfresh.
  intros Hp. clear Hnew. induction new as [|x new' IH]; [reflexivity|].
  simpl app. rewrite occurs_cons. rewrite IH.
  - destruct p as [|a p']; [congruence|]. simpl.
    destruct (Ascii.eqb a x) eqn:Hax; [|reflexivity].
    apply Ascii.eqb_eq in Hax; subst a. exfalso.
    apply (Hfresh x); left; reflexivity.
  - intros y Hy. apply Hfresh. now right.
Qed.

End Fresh.

(** An occurrence found after the replacement was there before it. *)
Lemma occurs_replace_reflect (p old new s : str) :
  old <> [] -> new <> [] -> (forall x, In x new -> ~ In x p) ->
  p <> [] -> occurs p (replace old new s) = true -> occurs p s = true.
Proof.
  intros Hold Hnew Hfresh Hp. pattern s.
  apply (replace_scan_ind (old := old)); [assumption | | |].
  - now rewrite replace_nil.
  - intros c t Hhit IH. rewrite replace_hit by assumption.
    rewrite (occurs_fresh_app (p := p)) by assumption. intros H.
    eapply occurs_skipn; eauto.
  - intros c t Hmiss IH. rewrite replace_miss by assumption.
    rewrite !occurs_cons, !orb_true_iff. intros [H|H]; [left | right; auto].
    destruct p as [|a p']; [congruence|].
    apply prefixb_cons in H. destruct H as [-> H].
    rewrite prefixb_cons. split; [reflexivity|].
    eapply (prefixb_replace_reflect (p := c :: p') (old := old) (new := new));
      try eassumption.
    intros x Hx; now right.
Qed.


(** After the replacement no occurrence of [old] is left, when the
    replacement text shares no character with it. *)
Lemma replace_removes (old new s : str) :
  old <> [] -> new <> [] -> (forall x, In x new -> ~ In x old) ->
  occurs old (replace old new s) = false.
Proof.
  intros Hold Hnew Hfresh. pattern s.
  apply (replace_scan_ind (old := old)); [assumption | | |].
  - rewrite replace_nil by assumption. destruct old; [congruence | reflexivity].
  - intros c t Hhit IH. rewrite replace_hit by assumption.
    rewrite (occurs_fresh_app (p := old)); assumption.
  - intros c t Hmiss IH. rewrite replace_miss by assumption.
    rewrite occurs_cons, IH, orb_false_r.
    destruct (prefixb old (c :: replace old new t)) eqn:H; [|reflexivity].
    rewrite <- Hmiss. symmetry.
    destruct old as [|a old']; [congruence|].
    apply prefixb_cons in H. destruct H as [-> H].
    rewrite prefixb_cons. split; [reflexivity|].
    eapply (prefixb_replace_reflect (p := c :: old') (old := c :: old') (new := new));
      try eassumption.
    intros x Hx; now right.
Qed.

End Occurrences.

Section WhiteSpace.

Lemma no_ws_cons (c : ascii) (p : str) :
  no_ws (c :: p) = true <-> is_space c = false /\ no_ws p = true.
Proof.
  unfold no_ws. cbn [forallb]. rewrite andb_true_iff, negb_true_iff. tauto.
Qed.

Lemma sub_spaces_app_no_ws (p t : str) (b : bool) :
  p <> [] -> no_ws p = true ->
  sub_spaces b (p ++ t) = p ++ sub_spaces false t.
Proof.
  intros Hp. revert b. induction p as [|c p IH]; [congruence|].
  intros b H. apply no_ws_cons in H. destruct H as [Hc Hrest].
  simpl app. cbn [sub_spaces]. rewrite Hc. f_equal.
  destruct p as [|d p']; [reflexivity|]. apply IH; [discriminate | assumption].
Qed.

Lemma prefixb_sub_spaces (p s : str) :
  no_ws p = true -> prefixb p (sub_spaces false s) = prefixb p s.
Proof.
  revert s. induction p as [|a p IH]; intros s H; [reflexivity|].
  apply no_ws_cons in H. destruct H as [Ha Hp].
  destruct s as [|c s]; [reflexivity|]. cbn [sub_spaces].
  destruct (is_space c) eqn:Hc; cbn [prefixb].
  - replace (Ascii.eqb a SP) with false.
    + replace (Ascii.eqb a c) with false; [reflexivity|].
      symmetry. apply Ascii.eqb_neq. congruence.
    + symmetry. apply Ascii.eqb_neq. intros ->. discriminate.
  - now rewrite IH.
Qed.

Lemma prefixb_ws_head (p : str) (c : ascii) (s : str) :
  p <> [] -> no_ws p = true -> is_space c = true -> prefixb p (c :: s) = false.
Proof.
  intros Hp H Hc. destruct p as [|a p]; [congruence|].
  apply no_ws_cons in H. destruct H as [Ha _]. cbn [prefixb].
  replace (Ascii.eqb a c) with false; [reflexivity|].
  symmetry. apply Ascii.eqb_neq. congruence.
Qed.

(** Collapsing the white space and a literal replacement commute, as long
    as neither the text looked for nor its replacement holds white space. *)
Lemma sub_spaces_replace (old new : str) :
  old <> [] -> no_ws old = true -> new <> [] -> no_ws new = true ->
  forall s b,
    sub_spaces b (replace old new s) = replace old new (sub_spaces b s).
Proof.
  intros Hold Wold Hnew Wnew s. pattern s.
  apply (replace_scan_ind (old := old)); [assumption | | |].
  - intros b. rewrite replace_nil by assumption. simpl.
    now rewrite replace_nil.
  - intros c t Hhit IH b. rewrite replace_hit by assumption.
    rewrite sub_spaces_app_no_ws by assumption. rewrite IH.
    rewrite (prefixb_split _ _ Hhit) at 2.
    rewrite sub_spaces_app_no_ws by assumption.
    now rewrite replace_app_hit.
  - intros c t Hmiss IH b. rewrite replace_miss by assumption.
    cbn [sub_spaces]. destruct (is_space c) eqn:Hc.
    + destruct b; [apply IH|].
      rewrite replace_miss; [now rewrite IH | assumption |].
      apply prefixb_ws_head; auto.
    + rewrite replace_miss; [now rewrite IH | assumption |].
      destruct old as [|a old']; [congruence|].
      apply no_ws_cons in Wold. destruct Wold as [_ Wold'].
      cbn [prefixb] in Hmiss |- *. now rewrite prefixb_sub_spaces.
Qed.

Lemma occurs_sub_spaces_reflect (p : str) :
  p <> [] -> no_ws p = true ->
  forall s b, occurs p (sub_spaces b s) = true -> occurs p s = true.
Proof.
  intros Hp Wp. induction s as [|c s IH]; intros b; [simpl; auto|].
  cbn [sub_spaces]. destruct (is_space c) eqn:Hc.
  - destruct b.
    + intros H. apply occurs_tail. eauto.
    + rewrite occurs_cons, prefixb_ws_head by auto. simpl. intros H.
      apply occurs_tail. eauto.
  - rewrite !occurs_cons, !orb_true_iff. intros [H|H]; [left | right; eauto].
    destruct p as [|a p']; [congruence|].
    apply no_ws_cons in Wp. destruct Wp as [_ Wp'].
    cbn [prefixb] in H |- *. now rewrite prefixb_sub_spaces in H.
Qed.

Lemma sub_spaces_normal (s : str) (b : bool) :
  ws_normal (sub_spaces b s) = true
  /\ (b = true -> starts_ws (sub_spaces b s) = false).
Proof.
  revert b. induction s as [|c s IH]; intros b; [simpl; auto|].
  cbn [sub_spaces]. destruct (is_space c) eqn:Hc.
  - destruct b.
    + apply IH.
    + split; [|discriminate]. cbn [ws_normal].
      destruct (IH true) as [H1 H2]. rewrite H1, H2 by reflexivity.
      reflexivity.
  - split.
    + cbn [ws_normal]. rewrite Hc. apply IH.
    + intros _. simpl. exact Hc.
Qed.

Lemma sub_spaces_fixed (s : str) (b : bool) :
  ws_normal s = true -> (b = true -> starts_ws s = false) ->
  sub_spaces b s = s.
Proof.
  revert b. induction s as [|c s IH]; intros b; [reflexivity|].
  cbn [ws_normal sub_spaces starts_ws]. destruct (is_space c) eqn:Hc.
  - rewrite !andb_true_iff, negb_true_iff, Ascii.eqb_eq.
    intros [[-> Hs] Hn] Hb. destruct b; [now specialize (Hb eq_refl)|].
    f_equal. apply IH; auto.
  - intros Hn _. f_equal. apply IH; [assumption | discriminate].
Qed.

Lemma ws_normal_space (s : str) (x : ascii) :
  ws_normal s = true -> In x s -> is_space x = true -> x = SP.
Proof.
  induction s as [|c s IH]; [intros _ []|].
  cbn [ws_normal]. rewrite andb_true_iff. intros [Hc Hs] [<-|Hx] Hsp; [|auto].
  rewrite Hsp in Hc. apply andb_true_iff in Hc. now apply Ascii.eqb_eq.
Qed.

Lemma lstrip_suffix (s : str) : exists a, s = a ++ lstrip s.
Proof.
  induction s as [|c s [a IH]]; [exists []; reflexivity|].
  simpl. destruct (is_space c).
  - exists (c :: a). simpl. now f_equal.
  - exists []. reflexivity.
Qed.

Lemma rstrip_prefix (s : str) : exists t, s = rstrip s ++ t.
Proof.
  induction s as [|c s [t IH]]; [exists []; reflexivity|].
  cbn [rstrip]. destruct (rstrip s) as [|d r].
  - destruct (is_space c).
    + exists (c :: s). reflexivity.
    + exists s. reflexivity.
  - exists t. simpl. f_equal. exact IH.
Qed.

Lemma ws_normal_app_r (a s : str) :
  ws_normal (a ++ s) = true -> ws_normal s = true.
Proof.
  induction a as [|c a IH]; [auto|]. simpl app. cbn [ws_normal].
  rewrite andb_true_iff. intros [_ H]; auto.
Qed.

Lemma starts_ws_app (s t : str) :
  s <> [] -> starts_ws (s ++ t) = starts_ws s.
Proof. destruct s; [congruence | reflexivity]. Qed.

Lemma ws_normal_app_l (s t : str) :
  ws_normal (s ++ t) = true -> ws_normal s = true.
Proof.
  induction s as [|c s IH]; [reflexivity|]. simpl app. cbn [ws_normal].
  rewrite !andb_true_iff. intros [Hc H]. split; [|auto].
  destruct (is_space c); [|reflexivity].
  rewrite andb_true_iff in *. destruct Hc as [Hc Hn]. split; [assumption|].
  destruct s; [reflexivity | exact Hn].
Qed.

Lemma lstrip_starts (s : str) : starts_ws (lstrip s) = false.
Proof.
  induction s as [|c s IH]; [reflexivity|]. simpl.
  destruct (is_space c) eqn:Hc; [assumption | simpl; assumption].
Qed.

Lemma lstrip_fixed (s : str) : starts_ws s = false -> lstrip s = s.
Proof. destruct s as [|c s]; [reflexivity|]. simpl. now intros ->. Qed.

Lemma rstrip_starts (s : str) :
  starts_ws s = false -> starts_ws (rstrip s) = false.
Proof.
  destruct s as [|c s]; [reflexivity|]. cbn [rstrip starts_ws]. intros Hc.
  destruct (rstrip s); [rewrite Hc|]; simpl; auto.
Qed.

Lemma rstrip_fixed (s : str) : rstrip (rstrip s) = rstrip s.
Proof.
  induction s as [|c s IH]; [reflexivity|]. cbn [rstrip].
  destruct (rstrip s) as [|d r] eqn:E.
  - destruct (is_space c) eqn:Hc; [reflexivity|]. cbn [rstrip]. now rewrite Hc.
  - change (rstrip (c :: d :: r)) with
      (match rstrip (d :: r) with
       | [] => if is_space c then [] else [c]
       | r' => c :: r' end).
    now rewrite IH.
Qed.

Lemma rstrip_ends (s : str) : ends_ws (rstrip s) = false.
Proof.
  induction s as [|c s IH]; [reflexivity|]. cbn [rstrip].
  destruct (rstrip s) as [|d r] eqn:E.
  - destruct (is_space c) eqn:Hc; [reflexivity | simpl; assumption].
  - exact IH.
Qed.

Lemma strip_fixed (s : str) : strip (strip s) = strip s.
Proof.
  unfold strip. rewrite (lstrip_fixed (rstrip (lstrip s))).
  - apply rstrip_fixed.
  - apply rstrip_starts, lstrip_starts.
Qed.

Lemma strip_infix (s : str) : exists a t, s = a ++ strip s ++ t.
Proof.
  unfold strip. destruct (lstrip_suffix s) as [a Ha].
  destruct (rstrip_prefix (lstrip s)) as [t Ht].
  exists a, t. now rewrite <- Ht.
Qed.

Lemma ws_normal_strip (s : str) : ws_normal s = true -> ws_normal (strip s) = true.
Proof.
  intros H. destruct (strip_infix s) as (a & t & E). rewrite E in H.
  eapply ws_normal_app_l, ws_normal_app_r; eauto.
Qed.

Lemma occurs_strip_reflect (p s : str) :
  occurs p (strip s) = true -> occurs p s = true.
Proof.
  intros H. destruct (strip_infix s) as (a & t & E). rewrite E.
  now apply occurs_app_r, occurs_app_l.
Qed.

End WhiteSpace.

(** ** Header cleaning *)

Section HeaderCleaning.

Ltac fresh_chars :=
  let x := fresh "x" in
  let Hx := fresh "Hx" in
  let Hp := fresh "Hp" in
  intros x Hx Hp; vm_compute in Hx, Hp;
  repeat match goal with
         | H : _ \/ _ |- _ => destruct H
         | H : False |- _ => destruct H
         end;
  subst; discriminate.

Lemma In_occurs (x : ascii) (s : str) : In x s -> occurs [x] s = true.
Proof.
  induction s as [|c s IH]; [intros []|]. intros [->|H].
  - rewrite occurs_cons. cbn [prefixb]. now rewrite Ascii.eqb_refl.
  - apply occurs_tail; auto.
Qed.

Lemma clean_colname_normal (s : str) : ws_normal (clean_colname s) = true.
Proof. unfold clean_colname. apply ws_normal_strip, sub_spaces_normal. Qed.

Lemma clean_colname_no_artifact (s : str) :
  occurs ARTIFACT (clean_colname s) = false.
Proof.
  destruct (occurs ARTIFACT (clean_colname s)) eqn:H; [exfalso|reflexivity].
  unfold clean_colname in H.
  apply occurs_strip_reflect in H.
  apply occurs_sub_spaces_reflect in H; [|discriminate|reflexivity].
  apply occurs_replace_reflect in H;
    [|discriminate|discriminate|fresh_chars|discriminate].
  apply occurs_replace_reflect in H;
    [|discriminate|discriminate|fresh_chars|discriminate].
  apply occurs_replace_reflect in H;
    [|discriminate|discriminate|fresh_chars|discriminate].
  rewrite replace_removes in H;
    [discriminate|discriminate|discriminate|fresh_chars].
Qed.

Lemma clean_colname_no_question (s : str) :
  occurs (lit "?") (clean_colname s) = false.
Proof.
  destruct (occurs (lit "?") (clean_colname s)) eqn:H; [exfalso|reflexivity].
  unfold clean_colname in H.
  apply occurs_strip_reflect in H.
  apply occurs_sub_spaces_reflect in H; [|discriminate|reflexivity].
  rewrite replace_removes in H;
    [discriminate|discriminate|discriminate|fresh_chars].
Qed.

Lemma clean_colname_no_break (s : str) :
  occurs [NL] (clean_colname s) = false.
Proof.
  destruct (occurs [NL] (clean_colname s)) eqn:H; [exfalso|reflexivity].
  apply occurs_incl in H.
  assert (E : NL = SP).
  { apply (ws_normal_space (clean_colname s)).
    - apply clean_colname_normal.
    - apply H. left; reflexivity.
    - reflexivity. }
  discriminate E.
Qed.

Lemma clean_colname_strip (s : str) : strip (clean_colname s) = clean_colname s.
Proof. unfold clean_colname. apply strip_fixed. Qed.

Lemma clean_colname_starts (s : str) : starts_ws (clean_colname s) = false.
Proof. unfold clean_colname, strip. apply rstrip_starts, lstrip_starts. Qed.

(** A cleaned label is cleaned once more into itself, unless the text
    "Nov-15" appears in it (as it does after cleaning "Nov?15"). *)
Lemma clean_colname_idempotent (s : str) :
  occurs (lit "Nov-15") (clean_colname s) = false ->
  clean_colname (clean_colname s) = clean_colname s.
Proof.
  intros Hnov. set (c := clean_colname s) in *.
  unfold clean_colname at 1.
  rewrite (replace_absent (old := [NL]));
    [|discriminate|apply clean_colname_no_break].
  rewrite (replace_absent (old := ARTIFACT));
    [|discriminate|apply clean_colname_no_artifact].
  rewrite (replace_absent (old := ARTIFACT ++ lit "15")); [|discriminate|].
  2:{ destruct (occurs (ARTIFACT ++ lit "15") c) eqn:H; [|reflexivity].
      apply occurs_prefix_of in H. unfold c in H.
      now rewrite clean_colname_no_artifact in H. }
  rewrite (replace_absent (old := lit "Nov-15")); [|discriminate|exact Hnov].
  rewrite (replace_absent (old := lit "?"));
    [|discriminate|apply clean_colname_no_question].
  rewrite sub_spaces_fixed;
    [apply clean_colname_strip | apply clean_colname_normal | discriminate].
Qed.

Lemma clean_colname_refines (s : str) :
  clean_colname s = clean_colname_spec s.
Proof.
  unfold clean_colname, clean_colname_spec.
  rewrite (sub_spaces_replace (old := lit "?"));
    [|discriminate|reflexivity|discriminate|reflexivity].
  rewrite (sub_spaces_replace (old := lit "Nov-15"));
    [|discriminate|reflexivity|discriminate|reflexivity].
  rewrite (sub_spaces_replace (old := ARTIFACT ++ lit "15"));
    [|discriminate|reflexivity|discriminate|reflexivity].
  rewrite (sub_spaces_replace (old := ARTIFACT));
    [|discriminate|reflexivity|discriminate|reflexivity].
  reflexivity.
Qed.

End HeaderCleaning.

(** ** Frames *)

Section Frames.

Lemma upd_fst (l : str) (lc : str * column) : fst (upd l lc) = fst lc.
Proof. unfold upd. destruct (str_eqb (fst lc) l); reflexivity. Qed.

Lemma count_label_fst (l : str) (cols : list (str * column)) :
  count_label l cols = length (filter (fun x => str_eqb x l) (map fst cols)).
Proof.
  unfold count_label. induction cols as [|lc cols IH]; [reflexivity|].
  simpl. destruct (str_eqb (fst lc) l); simpl; now rewrite IH.
Qed.

Lemma count_label_In (l : str) (cols : list (str * column)) :
  In l (map fst cols) -> 1 <= count_label l cols.
Proof.
  rewrite count_label_fst. induction (map fst cols) as [|x xs IH]; [intros []|].
  simpl. intros [->|H].
  - rewrite str_eqb_refl. simpl. lia.
  - specialize (IH H). destruct (str_eqb x l); simpl; lia.
Qed.

Lemma count_label_zero (l : str) (cols : list (str * column)) :
  count_label l cols = 0 -> ~ In l (map fst cols).
Proof. intros H Hin. apply count_label_In in Hin. lia. Qed.

Lemma count_label_NoDup (cols : list (str * column)) :
  NoDup (map fst cols) <->
  (forall l, In l (map fst cols) -> count_label l cols = 1).
Proof.
  induction cols as [|[l0 c0] cols IH]; simpl.
  - split; [intros _ l [] | constructor].
  - split.
    + intros Hnd l Hin. inversion Hnd as [|? ? Hnotin Hnd']; subst.
      unfold count_label. cbn [filter fst].
      destruct (str_eqb l0 l) eqn:E.
      * apply str_eqb_eq in E; subst l0. cbn [length]. f_equal.
        destruct (count_label l cols) eqn:Hc; [exact Hc|].
        exfalso. apply Hnotin.
        destruct (in_dec (list_eq_dec ascii_dec) l (map fst cols)) as [Hi|Hn];
          [exact Hi|].
        assert (count_label l cols = 0); [|congruence].
        rewrite count_label_fst. clear - Hn.
        induction (map fst cols) as [|x xs IHx]; [reflexivity|].
        simpl. destruct (str_eqb x l) eqn:Ex.
        -- apply str_eqb_eq in Ex. exfalso. apply Hn. now left.
        -- apply IHx. intros H. apply Hn. now right.
      * apply str_eqb_neq in E. destruct Hin as [H|H]; [congruence|].
        apply IH; assumption.
    + intros H. constructor.
      * intros Hin. pose proof (H l0 (or_introl eq_refl)) as H0.
        unfold count_label in H0. cbn [filter fst] in H0.
        rewrite str_eqb_refl in H0. cbn [length] in H0.
        apply count_label_In in Hin. unfold count_label in Hin. lia.
      * apply IH. intros l Hin. pose proof (H l (or_intror Hin)) as H0.
        unfold count_label in H0 |- *. cbn [filter fst] in H0.
        pose proof (count_label_In _ _ Hin) as H1. unfold count_label in H1.
        destruct (str_eqb l0 l); cbn [length] in H0; lia.
Qed.

Lemma filter_label_snd (l : str) (cols : list (str * column)) (c : column) (l' : str) :
  filter (fun lc => str_eqb (fst lc) l) cols = [(l', c)] ->
  forall lc, In lc cols -> str_eqb (fst lc) l = true -> lc = (l', c).
Proof.
  intros E lc Hin Hl.
  assert (H : In lc (filter (fun lc => str_eqb (fst lc) l) cols))
    by (apply filter_In; auto).
  rewrite E in H. destruct H as [H|[]]. now symmetry.
Qed.

(** One turn of the loop on a label that one column carries. *)
Lemma loop_step (l : str) (cols : list (str * column)) :
  count_label l cols = 1 ->
  exists c, In (l, c) cols
    /\ dtype_of l (getitem cols l) = Ok c
    /\ series_of (getitem cols l) = Ok c
    /\ setitem cols l (coerce_series c) = map (upd l) cols.
Proof.
  unfold count_label, getitem. intros H.
  destruct (filter (fun lc => str_eqb (fst lc) l) cols) as [|[l' c] [|? ?]] eqn:E;
    try discriminate.
  assert (Hin : In (l', c) (filter (fun lc => str_eqb (fst lc) l) cols))
    by (rewrite E; now left).
  apply filter_In in Hin. destruct Hin as [Hin Hl]. cbn [fst] in Hl.
  apply str_eqb_eq in Hl. subst l'.
  exists c. split; [assumption|]. split; [reflexivity|]. split; [reflexivity|].
  unfold setitem. apply map_ext_in. intros lc Hlc. unfold upd.
  destruct (str_eqb (fst lc) l) eqn:El; [|reflexivity].
  rewrite (filter_label_snd _ _ E lc Hlc El). reflexivity.
Qed.

Lemma count_label_upd (l l' : str) (cols : list (str * column)) :
  count_label l' (map (upd l) cols) = count_label l' cols.
Proof.
  rewrite !count_label_fst. f_equal. f_equal. rewrite map_map.
  apply map_ext. intros lc. apply upd_fst.
Qed.

(** The loop, when every label it meets is carried by one column. *)
Lemma coerce_loop_unique (ls : list str) :
  forall cols,
    (forall l, In l ls -> count_label l cols = 1) ->
    coerce_loop ls cols = Ok (fold_left (fun cs l => map (upd l) cs) ls cols).
Proof.
  induction ls as [|l ls IH]; intros cols H; [reflexivity|].
  cbn [coerce_loop fold_left].
  destruct (loop_step l cols (H l (or_introl eq_refl))) as (c & _ & Hs & _ & Hset).
  rewrite Hs. cbn [bind]. rewrite Hset. apply IH.
  intros l' Hl'. rewrite count_label_upd. apply H. now right.
Qed.

Lemma fold_upd (ls : list str) :
  NoDup ls ->
  forall cols,
    fold_left (fun cs l => map (upd l) cs) ls cols
    = map (fun lc =>
        if existsb (str_eqb (fst lc)) ls
        then (fst lc, coerce_series (snd lc)) else lc) cols.
Proof.
  induction 1 as [|l ls Hnotin Hnd IH]; intros cols.
  - simpl. symmetry. rewrite <- (map_id cols) at 2. reflexivity.
  - cbn [fold_left]. rewrite IH, map_map. apply map_ext. intros lc.
    rewrite upd_fst. unfold upd. cbn [existsb].
    destruct (str_eqb (fst lc) l) eqn:E; [|reflexivity].
    apply str_eqb_eq in E. cbn [orb fst snd].
    replace (existsb (str_eqb (fst lc)) ls) with false; [reflexivity|].
    symmetry. apply not_true_iff_false. intros Hex.
    apply existsb_exists in Hex. destruct Hex as (x & Hx & Hxe).
    apply str_eqb_eq in Hxe. apply Hnotin. congruence.
Qed.

(** With pairwise distinct labels the loop coerces every column. *)
Lemma coerce_loop_all (cols : list (str * column)) :
  NoDup (map fst cols) ->
  coerce_loop (map fst cols) cols
  = Ok (map (fun lc => (fst lc, coerce_series (snd lc))) cols).
Proof.
  intros Hnd. rewrite coerce_loop_unique.
  - rewrite fold_upd by assumption. f_equal. apply map_ext_in.
    intros lc Hin.
    replace (existsb (str_eqb (fst lc)) (map fst cols)) with true; [reflexivity|].
    symmetry. apply existsb_exists. exists (fst lc). split.
    + now apply in_map.
    + apply str_eqb_refl.
  - now apply count_label_NoDup.
Qed.

(** The loop stops at the first label that several columns carry: with a
    [ValueError] when that label is "dtype", with an [AttributeError]
    otherwise. *)
Lemma coerce_loop_duplicate (ls : list str) :
  forall cols,
    (forall l, In l ls -> In l (map fst cols)) ->
    (exists l, In l ls /\ 2 <= count_label l cols) ->
    exists l, In l ls /\ 2 <= count_label l cols
      /\ coerce_loop ls cols
         = Raise (if str_eqb l (lit "dtype") then ValueError else AttributeError).
Proof.
  induction ls as [|l ls IH]; intros cols Hin (d & Hd & Hcount);
    [destruct Hd|].
  cbn [coerce_loop].
  destruct (Nat.eq_dec (count_label l cols) 1) as [H1|H1].
  - destruct (loop_step l cols H1) as (c & _ & Hs & _ & Hset).
    rewrite Hs. cbn [bind]. rewrite Hset.
    destruct (IH (map (upd l) cols)) as (l' & Hl' & Hc' & E).
    + intros l' Hl'. rewrite map_map.
      rewrite (map_ext (fun x => fst (upd l x)) fst) by (intros; apply upd_fst).
      apply Hin. now right.
    + exists d. rewrite count_label_upd. split; [|assumption].
      destruct Hd as [->|Hd]; [lia | assumption].
    + exists l'. rewrite count_label_upd in Hc'. split; [now right|].
      split; assumption.
  - pose proof (count_label_In _ _ (Hin l (or_introl eq_refl))) as Hge.
    exists l. split; [now left|]. split; [lia|].
    unfold count_label in H1, Hge. unfold getitem.
    destruct (filter (fun lc => str_eqb (fst lc) l) cols) as [|[? ?] [|? ?]];
      simpl in H1, Hge; try lia. cbn [dtype_of bind].
    destruct (str_eqb l (lit "dtype")); reflexivity.
Qed.

Lemma coerce_loop_ok_NoDup (cols cols' : list (str * column)) :
  coerce_loop (map fst cols) cols = Ok cols' -> NoDup (map fst cols).
Proof.
  intros H. apply count_label_NoDup. intros l Hl.
  destruct (Nat.eq_dec (count_label l cols) 1) as [E|E]; [assumption|].
  destruct (@coerce_loop_duplicate (map fst cols) cols) as (d & _ & _ & Hd);
    [auto| |congruence].
  exists l. split; [assumption|]. apply count_label_In in Hl. lia.
Qed.

Lemma coerce_series_len (c : column) : col_len (coerce_series c) = col_len c.
Proof.
  unfold coerce_series. destruct (is_object c) eqn:Ho; [|reflexivity].
  destruct (length (non_null c) =? 0); [reflexivity|].
  match goal with |- context [if ?b then _ else _] => destruct b end;
    [|reflexivity].
  unfold to_numeric, cleaned_for_match, cleaned.
  match goal with |- context [if ?b then _ else _] => destruct b end;
    cbn [col_len]; rewrite !length_map; destruct c; simpl; now rewrite ?length_map.
Qed.

Lemma to_numeric_not_object (l : list str) : is_object (to_numeric l) = false.
Proof.
  unfold to_numeric.
  destruct (forallb is_int (map to_numeric_str l)); reflexivity.
Qed.

Lemma coerce_series_cases (c : column) :
  coerce_series c = c
  \/ (is_object c = true
      /\ coerce_series c = to_numeric (cleaned_for_match c)).
Proof.
  unfold coerce_series. destruct (is_object c); [|now left].
  destruct (length (non_null c) =? 0); [now left|].
  match goal with |- context [if ?b then _ else _] => destruct b end;
    [right; split; reflexivity | now left].
Qed.

Lemma coerce_series_fixed (c : column) :
  coerce_series (coerce_series c) = coerce_series c.
Proof.
  destruct (coerce_series_cases c) as [H|[_ H]].
  - now rewrite !H.
  - rewrite H. unfold coerce_series. now rewrite to_numeric_not_object.
Qed.

End Frames.

(** ** The three ways through the normalizer *)

Section Runs.

Variable v : pandas.

Lemma prepared_labels (df : DataFrame) :
  map fst (prepared df) = map fst (drop_unnamed (renamed df)).
Proof. unfold prepared. rewrite map_map. reflexivity. Qed.

Lemma clean_dataframe_empty (df : DataFrame) :
  empty df = true -> clean_dataframe v df = Ok empty_frame.
Proof. intros H. unfold clean_dataframe. now rewrite H. Qed.

Lemma clean_dataframe_prepared (df : DataFrame) :
  empty df = false -> NoDup (map fst (prepared df)) ->
  clean_dataframe v df =
  ('(idx, cols) <- index_like_step (nrows df) (prepared df) ;;
   idx <- final_index v idx (nrows df) ;;
   Ok (Frame idx cols)).
Proof.
  intros He Hnd. unfold clean_dataframe. rewrite He.
  rewrite prepared_labels in Hnd.
  fold (renamed df). rewrite coerce_loop_all by assumption. reflexivity.
Qed.

(** Two kept columns under one cleaned label stop the normalizer, at the
    first such label. *)
Lemma clean_dataframe_duplicate (df : DataFrame) (l : str) :
  empty df = false -> 2 <= count_label l (drop_unnamed (renamed df)) ->
  exists d, 2 <= count_label d (drop_unnamed (renamed df))
    /\ clean_dataframe v df
       = Raise (if str_eqb d (lit "dtype") then ValueError else AttributeError).
Proof.
  intros He Hc. unfold clean_dataframe. rewrite He. fold (renamed df).
  destruct (@coerce_loop_duplicate (map fst (drop_unnamed (renamed df)))
              (drop_unnamed (renamed df))) as (d & _ & Hd & E);
    [auto | | exists d; split; [exact Hd | now rewrite E]].
  exists l. split; [|assumption].
  destruct (in_dec (list_eq_dec ascii_dec) l
              (map fst (drop_unnamed (renamed df)))) as [Hi|Hn]; [assumption|].
  exfalso. rewrite count_label_fst in Hc.
  revert Hn Hc. generalize (map fst (drop_unnamed (renamed df))).
  induction l0 as [|x xs IH]; simpl; [lia|]. intros Hn.
  destruct (str_eqb x l) eqn:E.
  - apply str_eqb_eq in E. exfalso. apply Hn. now left.
  - apply IH. intros H. apply Hn. now right.
Qed.

Lemma clean_dataframe_ok_inv (df df' : DataFrame) :
  clean_dataframe v df = Ok df' ->
  empty df = false ->
  NoDup (map fst (prepared df)).
Proof.
  unfold clean_dataframe. intros H He. rewrite He in H. fold (renamed df) in H.
  rewrite prepared_labels.
  destruct (coerce_loop (map fst (drop_unnamed (renamed df)))
              (drop_unnamed (renamed df))) eqn:E; [|discriminate].
  eapply coerce_loop_ok_NoDup; eauto.
Qed.

Lemma index_like_pattern_nil : index_like_pattern (strip []) = false.
Proof. reflexivity. Qed.

Lemma candidate_In (cols : list (str * column)) (l : str) :
  candidate cols = Some l ->
  In l (map fst cols) /\ index_like_pattern (strip l) = true /\ nonempty l = true.
Proof.
  unfold candidate. intros H. apply find_some in H. destruct H as [Hin Hp].
  repeat split; try assumption.
  destruct l; [discriminate Hp | reflexivity].
Qed.

Lemma getitem_unique (cols : list (str * column)) (l : str) (c : column) :
  NoDup (map fst cols) -> In (l, c) cols ->
  series_of (getitem cols l) = Ok c.
Proof.
  intros Hnd Hin.
  assert (Hc : count_label l cols = 1).
  { apply count_label_NoDup; [assumption|]. now apply (in_map fst) in Hin. }
  destruct (loop_step l cols Hc) as (c' & Hin' & _ & Hs & _). rewrite Hs.
  f_equal. unfold count_label in Hc.
  destruct (filter (fun lc => str_eqb (fst lc) l) cols) as [|[l0 c0] [|? ?]] eqn:E;
    try discriminate.
  pose proof (filter_label_snd _ _ E (l, c) Hin (str_eqb_refl l)) as H1.
  pose proof (filter_label_snd _ _ E (l, c') Hin' (str_eqb_refl l)) as H2.
  congruence.
Qed.

Lemma index_like_step_none (n : nat) (cols : list (str * column)) :
  candidate cols = None ->
  index_like_step n cols = Ok (RangeIndex 0 (Z.of_nat n), cols).
Proof. unfold candidate, index_like_step. now intros ->. Qed.

Lemma index_like_step_some (n : nat) (cols : list (str * column)) (l : str) (c : column) :
  NoDup (map fst cols) -> candidate cols = Some l -> In (l, c) cols ->
  index_like_step n cols =
  if adoptable n c
  then Ok (Int64Index (astype_int (conv c)), drop cols l)
  else Ok (RangeIndex 0 (Z.of_nat n), cols).
Proof.
  intros Hnd Hc Hin. destruct (candidate_In _ Hc) as (_ & _ & Hne).
  unfold candidate in Hc. unfold index_like_step. rewrite Hc, Hne.
  rewrite (@getitem_unique cols l c Hnd Hin). cbn [bind]. unfold adoptable.
  destruct (notna_all (conv c)); [|reflexivity].
  cbn [andb]. reflexivity.
Qed.

End Runs.

(** ** The index conversion *)

Section IndexConversion.

Lemma nodup_length_le (l : list Z) : length (nodup Z.eq_dec l) <= length l.
Proof.
  induction l as [|a l IH]; [reflexivity|]. simpl.
  destruct (in_dec Z.eq_dec a l); simpl; lia.
Qed.

Lemma nunique_NoDup (l : list Z) : nunique l = length l <-> NoDup l.
Proof.
  unfold nunique. split.
  - induction l as [|a l IH]; [constructor|]. simpl.
    pose proof (nodup_length_le l) as Hle.
    destruct (in_dec Z.eq_dec a l); simpl; intros H; [lia|].
    constructor; [assumption | apply IH; lia].
  - intros H. now rewrite nodup_fixed_point.
Qed.

Lemma astype_str_len (c : column) : length (astype_str c) = col_len c.
Proof. destruct c; simpl; apply length_map. Qed.

Lemma index_value_whole (s : str) (z : Z) :
  index_value s z <-> whole_of (to_numeric_str (keep index_class s)) = Some z.
Proof.
  unfold index_value. cbv zeta.
  destruct (to_numeric_str (keep index_class s)) as [|z'|[m k]]; simpl.
  - split; [intros [H|H]; discriminate | discriminate].
  - split; [intros [H|H]; congruence | intros H; left; congruence].
  - destruct k; simpl; split.
    + intros [H|H]; congruence.
    + intros H; right; congruence.
    + intros [H|H]; congruence.
    + discriminate.
Qed.

Lemma Forall2_whole (l : list str) (ints : list Z) :
  Forall2 index_value l ints <->
  map (fun s => whole_of (to_numeric_str (keep index_class s))) l
  = map Some ints.
Proof.
  split.
  - induction 1 as [|s z l ints H _ IH]; [reflexivity|].
    simpl. apply index_value_whole in H. now rewrite H, IH.
  - revert ints. induction l as [|s l IH]; intros [|z ints] H;
      try discriminate; constructor.
    + apply index_value_whole. now inversion H.
    + apply IH. now inversion H.
Qed.

Lemma conv_tests (c : column) :
  let ps := map to_numeric_str (map (keep index_class) (astype_str c)) in
  notna_all (conv c) && integer_like (conv c) = forallb is_whole ps
  /\ (forallb is_whole ps = true ->
      map Some (astype_int (conv c)) = map whole_of ps).
Proof.
  intros ps. unfold conv, to_numeric. fold ps.
  destruct (forallb is_int ps) eqn:Hint.
  - cbn [notna_all integer_like andb astype_int].
    assert (H : forall p, In p ps -> is_int p = true)
      by (now apply forallb_forall).
    split.
    + symmetry. apply forallb_forall. intros p Hp.
      specialize (H p Hp). destruct p; try discriminate. reflexivity.
    + intros _. rewrite map_map. apply map_ext_in. intros p Hp.
      specialize (H p Hp). destruct p; try discriminate. reflexivity.
  - cbn [notna_all integer_like astype_int]. clear Hint. split.
    + induction ps as [|p ps IH]; [reflexivity|]. cbn [map forallb].
      rewrite <- IH.
      generalize (forallb (fun x : option dec =>
                    match x with Some _ => true | None => false end)
                    (map float_of ps)) as A.
      generalize (forallb (fun x : option dec =>
                    match x with Some d => scale d =? 0 | None => false end)
                    (map float_of ps)) as B.
      intros B A. unfold is_whole.
      destruct p as [|z|d]; cbn [float_of whole_of scale Nat.eqb].
      * reflexivity.
      * reflexivity.
      * destruct (scale d =? 0), A, B; reflexivity.
    + intros H. rewrite !map_map. apply map_ext_in. intros p Hp.
      assert (Hw : is_whole p = true)
        by (revert p Hp; now apply forallb_forall).
      destruct p as [|z|d]; cbn [float_of whole_of mant scale] in *.
      * discriminate.
      * now rewrite Z.quot_1_r.
      * unfold is_whole in Hw. cbn [whole_of] in Hw.
        destruct (scale d =? 0) eqn:E; [|discriminate].
        apply Nat.eqb_eq in E. rewrite E. now rewrite Z.quot_1_r.
Qed.

Lemma astype_int_conv_len (c : column) :
  length (astype_int (conv c)) = col_len c.
Proof.
  unfold conv, to_numeric.
  destruct (forallb is_int _); cbn [astype_int]; rewrite !length_map;
    apply astype_str_len.
Qed.

(** The three tests of the source hold exactly when the cells of the
    column stand for pairwise distinct whole numbers, which are then the
    integers the source takes as the index. *)
Lemma adoptable_spec (c : column) :
  (adoptable (col_len c) c = true <-> exists ints, index_values_of c ints)
  /\ (forall ints, index_values_of c ints -> astype_int (conv c) = ints).
Proof.
  destruct (conv_tests c) as [Ht Hv]. cbv zeta in Ht, Hv.
  assert (Hvals : forall ints, Forall2 index_value (astype_str c) ints ->
            forallb is_whole
              (map to_numeric_str (map (keep index_class) (astype_str c))) = true
            /\ astype_int (conv c) = ints).
  { intros ints H. apply Forall2_whole in H.
    assert (Hw : forallb is_whole
              (map to_numeric_str (map (keep index_class) (astype_str c))) = true).
    { apply forallb_forall. intros p Hp. rewrite map_map in Hp.
      apply in_map_iff in Hp. destruct Hp as (s & <- & Hs).
      unfold is_whole.
      assert (Hin : In (whole_of (to_numeric_str (keep index_class s)))
                (map Some ints)).
      { rewrite <- H. apply (in_map (fun s => whole_of (to_numeric_str (keep index_class s)))).
        exact Hs. }
      apply in_map_iff in Hin. destruct Hin as (z & <- & _). reflexivity. }
    split; [assumption|]. specialize (Hv Hw). rewrite !map_map in Hv.
    rewrite H in Hv. clear - Hv.
    revert ints Hv. induction (astype_int (conv c)) as [|a l IH];
      intros [|z ints] Hv; try discriminate; [reflexivity|].
    inversion Hv. f_equal. now apply IH. }
  split.
  - unfold adoptable. cbv zeta. rewrite Ht. split.
    + rewrite andb_true_iff, Nat.eqb_eq. intros [Hw Hn].
      exists (astype_int (conv c)). split.
      * apply Forall2_whole. specialize (Hv Hw). rewrite !map_map in Hv.
        symmetry. exact Hv.
      * apply nunique_NoDup. rewrite Hn. symmetry. apply astype_int_conv_len.
    + intros (ints & Hf & Hnd). destruct (Hvals ints Hf) as [Hw E].
      rewrite Hw. cbn [andb]. apply Nat.eqb_eq. rewrite E.
      apply nunique_NoDup in Hnd. rewrite Hnd.
      rewrite <- E. apply astype_int_conv_len.
  - intros ints [Hf _]. now apply Hvals.
Qed.

Lemma index_values_one_based (n : nat) :
  index_values (RangeIndex 1 (Z.of_nat n + 1)) = one_based n.
Proof.
  unfold index_values, one_based.
  replace (Z.to_nat (Z.of_nat n + 1 - 1)) with n by lia.
  rewrite <- seq_shift, map_map. apply map_ext. intros k. f_equal. lia.
Qed.

End IndexConversion.

(** ** The numeric pattern and the parser *)

Section NumericPattern.

Lemma span_digits_app (ds r : str) :
  forallb is_digit ds = true ->
  match r with [] => True | c :: _ => is_digit c = false end ->
  span_digits (ds ++ r) = (ds, r).
Proof.
  intros Hd Hr. induction ds as [|d ds IH].
  - simpl. destruct r as [|c r]; [reflexivity|]. simpl. now rewrite Hr.
  - simpl in Hd |- *. apply andb_true_iff in Hd. destruct Hd as [Hd Hds].
    now rewrite Hd, IH.
Qed.

Lemma span_digits_spec (s d r : str) :
  span_digits s = (d, r) ->
  s = d ++ r /\ forallb is_digit d = true
  /\ match r with [] => True | c :: _ => is_digit c = false end.
Proof.
  revert d r. induction s as [|c s IH]; intros d r.
  - simpl. intros H; inversion H; subst. auto.
  - simpl. destruct (is_digit c) eqn:Hc.
    + destruct (span_digits s) as [d' r'] eqn:E. intros H; inversion H; subst.
      destruct (IH d' r eq_refl) as (-> & Hd & Hr).
      repeat split; simpl; auto. now rewrite Hc.
    + intros H; inversion H; subst. simpl. auto.
Qed.

Lemma nonempty_ne (s : str) : nonempty s = true <-> s <> [].
Proof. destruct s; simpl; split; congruence. Qed.

Lemma at_end_no_break (r : str) : ~ In NL r -> at_end r = true -> r = [].
Proof.
  destruct r as [|c [|? ?]]; simpl; try discriminate; auto.
  intros H E. apply Ascii.eqb_eq in E. subst. exfalso. apply H. now left.
Qed.

(** On a string without line break the matcher accepts the shape
    [-?digits(.digits)?] and nothing else. *)
Lemma matches_number_shape (s : str) :
  ~ In NL s -> (matches_number s = true <-> looks_numeric s).
Proof.
  intros Hnl. split.
  - unfold matches_number. cbv zeta.
    set (r := opt_minus s).
    assert (Hs : exists sign, s = sign ++ r /\ (sign = [] \/ sign = lit "-")).
    { subst r. unfold opt_minus. destruct s as [|c s']; [exists []; auto|].
      destruct (Ascii.eqb c "-") eqn:E.
      - apply Ascii.eqb_eq in E. subst. exists (lit "-"). auto.
      - exists []. auto. }
    destruct Hs as (sign & Hs & Hsign). clearbody r.
    destruct (span_digits r) as [ds r1] eqn:E1.
    destruct (span_digits_spec _ E1) as (Hr & Hds & Hr1).
    rewrite andb_true_iff, orb_true_iff. intros [Hne [He|Hfrac]].
    + exists sign, ds, []. rewrite app_nil_r.
      assert (r1 = []).
      { apply at_end_no_break; [|assumption]. intros Hin. apply Hnl.
        rewrite Hs, Hr. apply in_or_app. right. apply in_or_app. now right. }
      subst r1. rewrite app_nil_r in Hr. subst r.
      apply nonempty_ne in Hne. repeat split; auto.
    + destruct r1 as [|c r2]; [discriminate|].
      apply andb_true_iff in Hfrac. destruct Hfrac as [Hc Hfrac].
      apply Ascii.eqb_eq in Hc. subst c.
      destruct (span_digits r2) as [fs r3] eqn:E2.
      destruct (span_digits_spec _ E2) as (Hr2 & Hfs & _).
      apply andb_true_iff in Hfrac. destruct Hfrac as [Hnf He].
      assert (r3 = []).
      { apply at_end_no_break; [|assumption]. intros Hin. apply Hnl.
        rewrite Hs, Hr, Hr2. apply in_or_app. right. apply in_or_app. right.
        right. apply in_or_app. now right. }
      subst r3. rewrite app_nil_r in Hr2. subst r2.
      exists sign, ds, ("."%char :: fs). subst r.
      apply nonempty_ne in Hne, Hnf. repeat split; auto.
      right. exists fs. repeat split; auto.
  - intros (sign & ds & frac & -> & Hsign & Hne & Hds & Hfrac).
    unfold matches_number. cbv zeta.
    assert (Hr : opt_minus (sign ++ ds ++ frac) = ds ++ frac).
    { unfold opt_minus. destruct Hsign as [->| ->]; [|reflexivity]. simpl.
      destruct ds as [|d ds]; [congruence|]. simpl in Hds |- *.
      apply andb_true_iff in Hds. destruct Hds as [Hd _].
      destruct (Ascii.eqb d "-") eqn:E; [|reflexivity].
      apply Ascii.eqb_eq in E. subst d. discriminate Hd. }
    rewrite Hr. clear Hr.
    rewrite span_digits_app; [|assumption|].
    2:{ destruct Hfrac as [->|(fs & -> & _)]; [exact I | reflexivity]. }
    replace (nonempty ds) with true by (symmetry; now apply nonempty_ne).
    cbn [andb]. destruct Hfrac as [->|(fs & -> & Hnf & Hfs)]; [reflexivity|].
    apply orb_true_iff. right. rewrite Ascii.eqb_refl. cbn [andb].
    rewrite <- (app_nil_r fs) at 1.
    rewrite span_digits_app by auto.
    destruct fs; [congruence | reflexivity].
Qed.

(** What has the shape of a number is parsed to a number. *)
Lemma looks_numeric_parsed (s : str) :
  looks_numeric s -> to_numeric_str s <> PNaN.
Proof.
  intros (sign & ds & frac & -> & Hsign & Hne & Hds & Hfrac).
  unfold to_numeric_str.
  assert (Hr : exists neg, opt_sign (sign ++ ds ++ frac) = (neg, ds ++ frac)).
  { unfold opt_sign.
    destruct Hsign as [->| ->]; [|exists true; reflexivity]. exists false. simpl.
    destruct ds as [|d ds]; [congruence|]. simpl in Hds |- *.
    apply andb_true_iff in Hds. destruct Hds as [Hd _].
    destruct (Ascii.eqb d "-") eqn:E1.
    { apply Ascii.eqb_eq in E1. subst d. discriminate Hd. }
    destruct (Ascii.eqb d "+") eqn:E2; [|reflexivity].
    apply Ascii.eqb_eq in E2. subst d. discriminate Hd. }
  destruct Hr as [neg ->].
  rewrite span_digits_app; [|assumption|].
  2:{ destruct Hfrac as [->|(fs & -> & _)]; [exact I | reflexivity]. }
  destruct Hfrac as [->|(fs & -> & Hnf & Hfs)].
  - destruct ds; [congruence | discriminate].
  - rewrite Ascii.eqb_refl. rewrite <- (app_nil_r fs) at 1.
    rewrite span_digits_app by auto.
    destruct ds; [congruence | discriminate].
Qed.

Lemma match_value_class (x : cell) (ch : ascii) :
  In ch (match_value x) -> is_digit ch = true \/ ch = "-"%char \/ ch = "."%char.
Proof.
  unfold match_value, keep. intros H. apply filter_In in H. destruct H as [_ H].
  unfold match_class in H. rewrite !orb_true_iff, !Ascii.eqb_eq in H. tauto.
Qed.

Lemma match_value_no_break (x : cell) : ~ In NL (match_value x).
Proof.
  intros H. apply match_value_class in H.
  destruct H as [H|[H|H]]; discriminate H.
Qed.

Lemma cleaned_for_match_object (cells : list cell) :
  cleaned_for_match (ObjectCol cells) = map match_value cells.
Proof.
  unfold cleaned_for_match, cleaned, astype_str, match_value.
  rewrite !map_map. reflexivity.
Qed.

Lemma numeric_values_to_numeric (l : list str) :
  numeric_values (to_numeric l)
  = Some (map (fun s => float_of (to_numeric_str s)) l).
Proof.
  unfold to_numeric. destruct (forallb is_int (map to_numeric_str l)) eqn:E.
  - cbn [numeric_values]. f_equal. rewrite !map_map. apply map_ext_in.
    intros s Hs.
    assert (H : is_int (to_numeric_str s) = true).
    { apply (proj1 (forallb_forall _ _) E). now apply in_map. }
    destruct (to_numeric_str s); try discriminate. reflexivity.
  - cbn [numeric_values]. now rewrite map_map.
Qed.

End NumericPattern.

(** ** What the normalizer returns *)

Section Outcome.

Variable v : pandas.

Lemma In_labels_column (cols : list (str * column)) (l : str) :
  In l (map fst cols) -> exists c, In (l, c) cols.
Proof.
  intros H. apply in_map_iff in H. destruct H as ([l' c] & <- & H).
  now exists c.
Qed.

(** The result on a frame with rows and columns whose kept labels are
    pairwise distinct. *)
Lemma clean_dataframe_cases (df : DataFrame) :
  empty df = false -> NoDup (map fst (prepared df)) ->
  match candidate (prepared df) with
  | None =>
    clean_dataframe v df
    = Ok (Frame (RangeIndex 1 (Z.of_nat (nrows df) + 1)) (prepared df))
  | Some l =>
    exists c, In (l, c) (prepared df) /\
      clean_dataframe v df =
      if adoptable (nrows df) c
      then
        if has_Int64Index v
        then Ok (Frame (Int64Index (astype_int (conv c))) (drop (prepared df) l))
        else Raise AttributeError
      else Ok (Frame (RangeIndex 1 (Z.of_nat (nrows df) + 1)) (prepared df))
  end.
Proof.
  intros He Hnd. rewrite (clean_dataframe_prepared v df He Hnd).
  destruct (candidate (prepared df)) as [l|] eqn:Hc.
  - destruct (candidate_In _ Hc) as (Hin & _ & _).
    destruct (In_labels_column _ _ Hin) as [c Hc'].
    exists c. split; [assumption|].
    rewrite (@index_like_step_some (nrows df) (prepared df) l c Hnd Hc Hc').
    destruct (adoptable (nrows df) c); [|reflexivity].
    cbn [bind final_index]. destruct (has_Int64Index v); reflexivity.
  - rewrite (index_like_step_none _ _ Hc). reflexivity.
Qed.

(** The three outcomes on a frame with rows and columns: a table; with
    pairwise distinct kept labels, the [AttributeError] of the last block
    when a column has been taken as row index and [pd.Int64Index] is
    missing; the exception of the coercion loop when two kept labels are
    equal. *)
Lemma clean_dataframe_total (df : DataFrame) :
  empty df = false ->
  (NoDup (map fst (prepared df))
   /\ ((exists df', clean_dataframe v df = Ok df')
       \/ (has_Int64Index v = false
           /\ (exists l c, candidate (prepared df) = Some l
                  /\ In (l, c) (prepared df)
                  /\ adoptable (nrows df) c = true)
           /\ clean_dataframe v df = Raise AttributeError)))
  \/ (~ NoDup (map fst (prepared df))
      /\ exists d, 2 <= count_label d (drop_unnamed (renamed df))
           /\ clean_dataframe v df
              = Raise (if str_eqb d (lit "dtype")
                       then ValueError else AttributeError)).
Proof.
  intros He.
  destruct (ListDec.NoDup_dec (list_eq_dec ascii_dec) (map fst (prepared df)))
    as [Hnd|Hnd].
  - left. split; [assumption|].
    pose proof (clean_dataframe_cases df He Hnd) as H.
    destruct (candidate (prepared df)) as [l|] eqn:Hc.
    + destruct H as (c & Hin & H). rewrite H.
      destruct (adoptable (nrows df) c) eqn:Ha; [|eauto].
      destruct (has_Int64Index v); [eauto|].
      right. split; [reflexivity|]. split; [|reflexivity].
      exists l, c. auto.
    + eauto.
  - right. split; [assumption|]. rewrite prepared_labels in Hnd.
    set (cols := drop_unnamed (renamed df)) in *.
    destruct (Forall_Exists_dec (fun l => count_label l cols = 1)
                (fun l => Nat.eq_dec (count_label l cols) 1) (map fst cols))
      as [Hall|Hex].
    + exfalso. apply Hnd. apply count_label_NoDup.
      now apply Forall_forall.
    + apply Exists_exists in Hex. destruct Hex as (l & Hin & Hc).
      apply (clean_dataframe_duplicate v df l He).
      apply count_label_In in Hin. fold cols. lia.
Qed.

(** The columns of a result are the prepared ones, all of them or all but
    the one the index was taken from. *)
Lemma clean_dataframe_columns (df df' : DataFrame) :
  clean_dataframe v df = Ok df' -> empty df = false ->
  (df_index df' = RangeIndex 1 (Z.of_nat (nrows df) + 1)
   /\ df_columns df' = prepared df
   /\ (forall l c, candidate (prepared df) = Some l -> In (l, c) (prepared df) ->
         adoptable (nrows df) c = false))
  \/ (exists l c,
        candidate (prepared df) = Some l /\ In (l, c) (prepared df)
        /\ adoptable (nrows df) c = true
        /\ has_Int64Index v = true
        /\ df_index df' = Int64Index (astype_int (conv c))
        /\ df_columns df' = drop (prepared df) l).
Proof.
  intros H He. pose proof (clean_dataframe_ok_inv v df H He) as Hnd.
  pose proof (clean_dataframe_cases df He Hnd) as Hc.
  destruct (candidate (prepared df)) as [l|].
  - destruct Hc as (c & Hin & E). rewrite E in H.
    destruct (adoptable (nrows df) c) eqn:Ha.
    + destruct (has_Int64Index v) eqn:Hv; [|discriminate].
      inversion H; subst; cbn. right. exists l, c. auto 10.
    + inversion H; subst; cbn. left. split; [reflexivity|].
      split; [reflexivity|]. intros l0 c0 El Hin0. injection El as <-.
      pose proof (@getitem_unique _ _ _ Hnd Hin) as E1.
      pose proof (@getitem_unique _ _ _ Hnd Hin0) as E2.
      assert (c0 = c) by congruence. now subst.
  - rewrite Hc in H. inversion H; subst. left. cbn.
    split; [reflexivity|]. split; [reflexivity|]. discriminate.
Qed.

Lemma drop_incl (cols : list (str * column)) (l : str) : incl (drop cols l) cols.
Proof. intros x H. unfold drop in H. now apply filter_In in H. Qed.

Lemma clean_dataframe_incl (df df' : DataFrame) :
  clean_dataframe v df = Ok df' -> empty df = false ->
  incl (df_columns df') (prepared df).
Proof.
  intros H He. destruct (clean_dataframe_columns df H He)
    as [(_ & -> & _)|(l & c & _ & _ & _ & _ & _ & ->)].
  - apply incl_refl.
  - apply drop_incl.
Qed.

Lemma prepared_In (df : DataFrame) (l' : str) (c' : column) :
  In (l', c') (prepared df) ->
  exists l c, In (l, c) (df_columns df)
    /\ l' = clean_colname l /\ c' = coerce_series c
    /\ prefixb (lit "Unnamed") l' = false.
Proof.
  unfold prepared, drop_unnamed, renamed. intros H.
  apply in_map_iff in H. destruct H as ([l1 c1] & E & H).
  cbn [fst snd] in E. injection E as <- <-.
  apply filter_In in H. destruct H as [H Hp].
  apply in_map_iff in H. destruct H as ([l0 c0] & E' & H).
  cbn [fst snd] in E'. injection E' as <- <-.
  exists l0, c0. cbn [fst snd] in *. repeat split; auto.
  now apply negb_true_iff.
Qed.

End Outcome.

(** ** Integers as text *)

Section IntegerText.

Lemma uchars_digits (d : Decimal.uint) : forallb is_digit (uchars d) = true.
Proof. induction d; simpl; auto. Qed.

Lemma uchars_acc (d : Decimal.uint) :
  forall acc : positive,
    fold_left step (uchars d) (Z.pos acc) = Z.pos (Pos.of_uint_acc d acc).
Proof.
  unfold uchars.
  induction d as [|d IH|d IH|d IH|d IH|d IH|d IH|d IH|d IH|d IH|d IH];
    intros acc; [reflexivity|..];
    cbn [NilEmpty.string_of_uint list_ascii_of_string fold_left Pos.of_uint_acc];
    rewrite <- IH; f_equal; unfold step;
    match goal with |- context [digit_val ?c] =>
      let v := eval vm_compute in (digit_val c) in
      change (digit_val c) with v end; lia.
Qed.

Lemma uchars_val (d : Decimal.uint) :
  digits_val (uchars d) = Z.of_N (Pos.of_uint d).
Proof.
  unfold digits_val, uchars.
  induction d as [|d IH|d IH|d IH|d IH|d IH|d IH|d IH|d IH|d IH|d IH];
    [reflexivity|exact IH|..];
    cbn [NilEmpty.string_of_uint list_ascii_of_string fold_left Pos.of_uint];
    match goal with |- fold_left step ?l (step 0 ?c) = Z.of_N (N.pos (Pos.of_uint_acc _ ?k)) =>
      change (step 0 c) with (Z.pos k) end;
    apply uchars_acc.
Qed.

Lemma str_of_Z_pos (p : positive) : str_of_Z (Z.pos p) = uchars (Pos.to_uint p).
Proof.
  unfold str_of_Z, uchars. cbn [Z.to_int NilZero.string_of_int].
  pose proof (DecimalPos.Unsigned.to_uint_nonnil p) as H.
  unfold NilZero.string_of_uint. destruct (Pos.to_uint p); [congruence|..];
    reflexivity.
Qed.

Lemma str_of_Z_neg (p : positive) :
  str_of_Z (Z.neg p) = "-"%char :: uchars (Pos.to_uint p).
Proof.
  unfold str_of_Z, uchars. cbn [Z.to_int NilZero.string_of_int].
  pose proof (DecimalPos.Unsigned.to_uint_nonnil p) as H.
  unfold NilZero.string_of_uint. destruct (Pos.to_uint p); [congruence|..];
    reflexivity.
Qed.

Lemma to_uint_val (p : positive) :
  digits_val (uchars (Pos.to_uint p)) = Z.pos p.
Proof. rewrite uchars_val, DecimalPos.Unsigned.of_to. reflexivity. Qed.

Lemma uchars_nonempty (p : positive) : uchars (Pos.to_uint p) <> [].
Proof.
  pose proof (DecimalPos.Unsigned.to_uint_nonnil p) as H. unfold uchars.
  destruct (Pos.to_uint p); [congruence|..]; discriminate.
Qed.

Lemma parse_digits (ds : str) :
  ds <> [] -> forallb is_digit ds = true ->
  to_numeric_str ds = PInt (digits_val ds)
  /\ to_numeric_str ("-"%char :: ds) = PInt (- digits_val ds).
Proof.
  intros Hne Hd. unfold to_numeric_str.
  assert (Hs : opt_sign ds = (false, ds)).
  { unfold opt_sign. destruct ds as [|d ds]; [congruence|].
    simpl in Hd. apply andb_true_iff in Hd. destruct Hd as [Hd _].
    destruct (Ascii.eqb d "-") eqn:E1.
    { apply Ascii.eqb_eq in E1. subst d. discriminate Hd. }
    destruct (Ascii.eqb d "+") eqn:E2; [|reflexivity].
    apply Ascii.eqb_eq in E2. subst d. discriminate Hd. }
  assert (Hsp : span_digits ds = (ds, [])).
  { rewrite <- (app_nil_r ds) at 1. now apply span_digits_app. }
  apply nonempty_ne in Hne.
  split.
  - rewrite Hs, Hsp, Hne. reflexivity.
  - cbn [opt_sign]. rewrite Ascii.eqb_refl, Hsp, Hne. reflexivity.
Qed.

(** The text of an integer is read back as that integer. *)
Lemma parse_str_of_Z (z : Z) :
  to_numeric_str (keep index_class (str_of_Z z)) = PInt z.
Proof.
  assert (Hkeep : forall ds, forallb is_digit ds = true ->
            keep index_class ds = ds
            /\ keep index_class ("-"%char :: ds) = "-"%char :: ds).
  { intros ds Hd. assert (H : filter index_class ds = ds).
    { apply filter_all. intros x Hx. unfold index_class.
      rewrite (proj1 (forallb_forall _ _) Hd x Hx). reflexivity. }
    unfold keep. split; [exact H|]. cbn [filter].
    change (index_class "-") with true. cbv iota. now rewrite H. }
  destruct z as [|p|p].
  - reflexivity.
  - rewrite str_of_Z_pos.
    rewrite (proj1 (Hkeep _ (uchars_digits _))).
    rewrite (proj1 (parse_digits (uchars_nonempty p) (uchars_digits _))).
    now rewrite to_uint_val.
  - rewrite str_of_Z_neg.
    rewrite (proj2 (Hkeep _ (uchars_digits _))).
    rewrite (proj2 (parse_digits (uchars_nonempty p) (uchars_digits _))).
    now rewrite to_uint_val.
Qed.

(** The conversion of the index step gives an int64 column back. *)
Lemma conv_int64 (l : list Z) : conv (Int64Col l) = Int64Col l.
Proof.
  unfold conv, to_numeric. cbn [astype_str].
  assert (E : map to_numeric_str (map (keep index_class) (map str_of_Z l))
              = map PInt l).
  { rewrite !map_map. apply map_ext. intros z. apply parse_str_of_Z. }
  rewrite E.
  replace (forallb is_int (map PInt l)) with true.
  - f_equal. rewrite map_map. cbn [int_of]. apply map_id.
  - symmetry. apply forallb_forall. intros p Hp.
    apply in_map_iff in Hp. destruct Hp as (z & <- & _). reflexivity.
Qed.

(** An int64 column of pairwise distinct values passes the three tests. *)
Lemma int64_index_values (l : list Z) :
  NoDup l -> index_values_of (Int64Col l) l.
Proof.
  intros Hnd. split; [|assumption]. cbn [astype_str].
  clear Hnd. induction l as [|z l IH]; constructor; [|exact IH].
  left. apply parse_str_of_Z.
Qed.

End IntegerText.

(** ** The claims *)

Lemma result_labels_kept (v : pandas) (df df' : DataFrame) (l : str) :
  clean_dataframe v df = Ok df' -> In l (labels df') ->
  prefixb (lit "Unnamed") l = false.
Proof.
  intros H Hl. destruct (empty df) eqn:He.
  - rewrite (clean_dataframe_empty v df He) in H. inversion H; subst.
    destruct Hl.
  - unfold labels in Hl. apply In_labels_column in Hl. destruct Hl as [c Hc].
    apply (clean_dataframe_incl v df H He) in Hc.
    apply prepared_In in Hc. destruct Hc as (l0 & c0 & _ & _ & _ & Hp).
    exact Hp.
Qed.

(** C7. Header cleaning turns line breaks into spaces, collapses each run
    of white space into one space, applies the literal substitutions
    (artifact to "-", artifact followed by 15 to "-15", "Nov-15" to "11-15",
    "?" to "-") and trims: the source's order of these steps gives the same
    label as the order of the specification, the label that comes out holds
    no line break, no other white space than single spaces, none at either
    end, no artifact and no "?"; "Victims\nAge" becomes "Victims Age" and
    "Nov-15" becomes "11-15". *)
Theorem clean_colname_correct :
  (forall s : str,
     clean_colname s = clean_colname_spec s
     /\ occurs [NL] (clean_colname s) = false
     /\ ws_normal (clean_colname s) = true
     /\ starts_ws (clean_colname s) = false
     /\ ends_ws (clean_colname s) = false
     /\ occurs ARTIFACT (clean_colname s) = false
     /\ occurs (lit "?") (clean_colname s) = false)
  /\ clean_colname (lit "Victims" ++ [NL] ++ lit "Age") = lit "Victims Age"
  /\ clean_colname (lit "Nov-15") = lit "11-15"
  /\ clean_colname (lit "Age " ++ ARTIFACT ++ lit "15") = lit "Age -15"
  /\ clean_colname (lit "10" ++ ARTIFACT ++ lit "14") = lit "10-14"
  /\ clean_colname (lit "10?14") = lit "10-14".
Proof.
  split; [|repeat split; vm_compute; reflexivity].
  intros s. repeat split.
  - apply clean_colname_refines.
  - apply clean_colname_no_break.
  - apply clean_colname_normal.
  - apply clean_colname_starts.
  - unfold clean_colname, strip. apply rstrip_ends.
  - apply clean_colname_no_artifact.
  - apply clean_colname_no_question.
Qed.

(** C9. No column label of a table the normalizer returns starts with
    "Unnamed": every column whose cleaned label starts with it is
    dropped. *)
Theorem no_unnamed_label (v : pandas) (df df' : DataFrame) :
  clean_dataframe v df = Ok df' ->
  (forall l, In l (labels df') -> prefixb (lit "Unnamed") l = false)
  /\ (forall l c, In (l, c) (df_columns df) ->
        prefixb (lit "Unnamed") (clean_colname l) = true ->
        ~ In (clean_colname l) (labels df')).
Proof.
  intros H. split; [intros l; now apply (@result_labels_kept v df df' l H)|].
  intros l c _ Hp Hin. apply (@result_labels_kept v df df' _ H) in Hin. congruence.
Qed.

Lemma no_unnamed_label_witness :
  clean_dataframe Pandas2 unnamed_frame
  = Ok (Frame (RangeIndex 1 4) [(lit "State", text ["Ohio"; "Utah"; "Iowa"]%string)])
  /\ ~ In (clean_colname (lit "Unnamed: 0"))
         (labels (Frame (RangeIndex 1 4)
                    [(lit "State", text ["Ohio"; "Utah"; "Iowa"]%string)])).
Proof.
  assert (E : clean_dataframe Pandas2 unnamed_frame
    = Ok (Frame (RangeIndex 1 4) [(lit "State", text ["Ohio"; "Utah"; "Iowa"]%string)]))
    by (vm_compute; reflexivity).
  split; [exact E|].
  apply (proj2 (@no_unnamed_label Pandas2 unnamed_frame _ E) (lit "Unnamed: 0")
           (Int64Col [3; 1; 2]%Z)).
  - left; reflexivity.
  - vm_compute; reflexivity.
Defined.

Lemma count_true_map (A : Type) (f : A -> bool) (l : list A) :
  count_true (map f l) = length (filter f l).
Proof.
  unfold count_true. induction l as [|a l IH]; [reflexivity|].
  simpl. unfold id at 1. destruct (f a); simpl; now rewrite IH.
Qed.

Lemma forallb_id_map (A : Type) (f : A -> bool) (l : list A) :
  forallb id (map f l) = forallb f l.
Proof. induction l as [|a l IH]; [reflexivity|]. simpl. now rewrite IH. Qed.

(** The loop body on a text column, in terms of the match values. *)
Lemma coerce_series_object (cells : list cell) :
  coerce_series (ObjectCol cells) =
  let nn := filter nonempty (map match_value cells) in
  if length nn =? 0 then ObjectCol cells
  else if (length nn <=? 2 * length (filter matches_number nn))
          || forallb matches_number nn
       then to_numeric (map match_value cells)
       else ObjectCol cells.
Proof.
  unfold coerce_series, non_null. cbn [is_object].
  rewrite cleaned_for_match_object, count_true_map, forallb_id_map, length_map.
  reflexivity.
Qed.

Lemma non_null_match_value (cells : list cell) (mv : str) :
  In mv (filter nonempty (map match_value cells)) -> ~ In NL mv.
Proof.
  intros H. apply filter_In in H. destruct H as [H _].
  apply in_map_iff in H. destruct H as (x & <- & _).
  apply match_value_no_break.
Qed.

(** C1. The match values of a text column hold digits, minus and point
    only, and the pattern of the code matches exactly the shape
    -?digits(.digits)?.  A column without a non-empty match value, such as
    ["Ohio", "Utah"], is left as it was.  A column with one becomes numeric,
    with as many cells, exactly when at least half of the non-empty match
    values have the shape or all of them have; each cell is then the number
    its match value parses to, null where it does not parse (the values
    are stated for cells of at most fifteen digits, where the numbers of
    the model are those of float64); the column is left as it was
    otherwise.  In a returned table every column is the coerced form of an
    input column, unchanged or numeric and made from a text column, and
    every input column whose cleaned label is kept is there in its coerced
    form, the one the row index was taken from apart.
    ["1,234", "5,678", ""] becomes [1234.0, 5678.0, null]. *)
Theorem numeric_coercion :
  (forall cells : list cell,
     let mvs := map match_value cells in
     let nn := filter nonempty mvs in
     let half_or_all :=
       length nn <= 2 * length (filter matches_number nn)
       \/ Forall looks_numeric nn in
     (forall mv ch, In mv mvs -> In ch mv ->
        is_digit ch = true \/ ch = "-"%char \/ ch = "."%char)
     /\ (forall mv, In mv mvs -> (matches_number mv = true <-> looks_numeric mv))
     /\ (nn = [] -> coerce_series (ObjectCol cells) = ObjectCol cells)
     /\ (nn <> [] -> half_or_all ->
         is_object (coerce_series (ObjectCol cells)) = false
         /\ col_len (coerce_series (ObjectCol cells)) = length cells
         /\ (exact_column (ObjectCol cells) = true ->
             numeric_values (coerce_series (ObjectCol cells))
             = Some (map (fun mv => float_of (to_numeric_str mv)) mvs)))
     /\ (nn <> [] -> ~ half_or_all ->
         coerce_series (ObjectCol cells) = ObjectCol cells)
     /\ (forall mv, In mv mvs -> looks_numeric mv ->
         float_of (to_numeric_str mv) <> None))
  /\ (forall v df df',
        clean_dataframe v df = Ok df' ->
        (forall l' c', In (l', c') (df_columns df') ->
           exists l c, In (l, c) (df_columns df)
             /\ l' = clean_colname l /\ c' = coerce_series c
             /\ (c' = c \/ (is_object c = true /\ is_object c' = false)))
        /\ (empty df = false ->
            forall l c, In (l, c) (df_columns df) ->
              prefixb (lit "Unnamed") (clean_colname l) = false ->
              In (clean_colname l, coerce_series c) (df_columns df')
              \/ (candidate (prepared df) = Some (clean_colname l)
                  /\ exists vals, df_index df' = Int64Index vals)))
  /\ coerce_series population_column
     = Float64Col [Some (Dec 1234 0); Some (Dec 5678 0); None].
Proof.
  split; [|split; [|vm_compute; reflexivity]].
  - intros cells mvs nn half_or_all.
    assert (Hshape : forall mv, In mv mvs ->
              (matches_number mv = true <-> looks_numeric mv)).
    { intros mv Hmv. apply matches_number_shape.
      apply in_map_iff in Hmv. destruct Hmv as (x & <- & _).
      apply match_value_no_break. }
    assert (Hall : Forall looks_numeric nn <-> forallb matches_number nn = true).
    { rewrite forallb_forall, Forall_forall. split; intros H mv Hmv.
      - apply Hshape; [|now apply H]. now apply filter_In in Hmv.
      - apply Hshape; [|now apply H]. now apply filter_In in Hmv. }
    assert (Hlen : nn <> [] -> (length nn =? 0) = false).
    { intros Hnn. apply Nat.eqb_neq. destruct nn; [congruence | discriminate]. }
    assert (Hto : nn <> [] -> half_or_all ->
              coerce_series (ObjectCol cells) = to_numeric mvs).
    { intros Hnn Hcond. rewrite coerce_series_object. fold mvs. fold nn.
      cbv zeta. rewrite (Hlen Hnn).
      replace ((length nn <=? 2 * length (filter matches_number nn))
               || forallb matches_number nn) with true; [reflexivity|].
      symmetry. apply orb_true_iff. destruct Hcond as [H|H].
      - left. now apply Nat.leb_le.
      - right. now apply Hall. }
    split; [|split; [|split; [|split; [|split]]]].
    + intros mv ch Hmv Hch. apply in_map_iff in Hmv.
      destruct Hmv as (x & <- & _). now apply match_value_class in Hch.
    + exact Hshape.
    + intros Hnn. rewrite coerce_series_object. fold mvs. fold nn.
      cbv zeta. now rewrite Hnn.
    + intros Hnn Hcond. split; [|split].
      * rewrite (Hto Hnn Hcond). apply to_numeric_not_object.
      * rewrite coerce_series_len. reflexivity.
      * intros _. rewrite (Hto Hnn Hcond). apply numeric_values_to_numeric.
    + intros Hnn Hcond. rewrite coerce_series_object. fold mvs. fold nn.
      cbv zeta. rewrite (Hlen Hnn).
      replace ((length nn <=? 2 * length (filter matches_number nn))
               || forallb matches_number nn) with false; [reflexivity|].
      symmetry. apply not_true_iff_false. intros H. apply Hcond.
      apply orb_true_iff in H. destruct H as [H|H].
      * left. now apply Nat.leb_le.
      * right. now apply Hall.
    + intros mv _ Hl. apply looks_numeric_parsed in Hl.
      destruct (to_numeric_str mv); [congruence | discriminate | discriminate].
  - intros v df df' H. split.
    + intros l' c' Hin. destruct (empty df) eqn:He.
      * rewrite (clean_dataframe_empty v df He) in H. inversion H; subst.
        destruct Hin.
      * apply (clean_dataframe_incl v df H He) in Hin.
        apply prepared_In in Hin. destruct Hin as (l & c & Hin & -> & -> & _).
        exists l, c. repeat split; auto.
        destruct (coerce_series_cases c) as [E|[Ho E]]; [now left|].
        right. split; [assumption|]. rewrite E. apply to_numeric_not_object.
    + intros He l c Hin Hun.
      pose proof (clean_dataframe_ok_inv v df H He) as Hnd.
      assert (Hprep : In (clean_colname l, coerce_series c) (prepared df)).
      { unfold prepared, drop_unnamed, renamed.
        apply in_map_iff. exists (clean_colname l, c). cbn [fst snd].
        split; [reflexivity|]. apply filter_In. cbn [fst]. split.
        - apply in_map_iff. exists (l, c). auto.
        - now rewrite Hun. }
      destruct (clean_dataframe_columns v df H He)
        as [(_ & Ecols & _)|(l0 & c0 & Hcand & Hin0 & _ & _ & Hi & Ecols)].
      * left. now rewrite Ecols.
      * destruct (str_eqb (clean_colname l) l0) eqn:El.
        -- right. apply str_eqb_eq in El. subst l0. eauto.
        -- left. rewrite Ecols. unfold drop. apply filter_In. cbn [fst].
           split; [assumption | now rewrite El].
Qed.

Lemma numeric_coercion_witness :
  numeric_values (coerce_series (ObjectCol [Some (lit "1,234"); Some (lit "5,678"); None]))
  = Some [Some (Dec 1234 0); Some (Dec 5678 0); None]
  /\ coerce_series (ObjectCol [Some (lit "10-14"); Some (lit "15-19"); Some (lit "1")])
     = ObjectCol [Some (lit "10-14"); Some (lit "15-19"); Some (lit "1")]
  /\ coerce_series (ObjectCol [Some (lit "Ohio"); Some (lit "Utah")])
     = ObjectCol [Some (lit "Ohio"); Some (lit "Utah")]
  /\ (In (clean_colname (lit "Population1"), coerce_series population_column)
         [(lit "State", text ["Ohio"; "Utah"; "Iowa"]%string);
          (lit "Population1",
           Float64Col [Some (Dec 1234 0); Some (Dec 5678 0); None])]
      \/ (candidate (prepared population_frame)
          = Some (clean_colname (lit "Population1"))
          /\ exists vals, RangeIndex 1 4 = Int64Index vals)).
Proof.
  destruct numeric_coercion as (Hcol & Hdf & _).
  split; [|split; [|split]].
  - destruct (Hcol [Some (lit "1,234"); Some (lit "5,678"); None])
      as (_ & _ & _ & Hnum & _).
    destruct Hnum as (_ & _ & Hval);
      [vm_compute; discriminate | left; vm_compute; lia |].
    rewrite Hval; vm_compute; reflexivity.
  - destruct (Hcol [Some (lit "10-14"); Some (lit "15-19"); Some (lit "1")])
      as (_ & Hshape & _ & _ & Htext & _).
    apply Htext; [vm_compute; discriminate|]. intros [H|H].
    + vm_compute in H. lia.
    + apply Forall_inv in H. apply Hshape in H; [vm_compute in H; discriminate|].
      left. reflexivity.
  - destruct (Hcol [Some (lit "Ohio"); Some (lit "Utah")])
      as (_ & _ & Hnone & _).
    apply Hnone. reflexivity.
  - destruct (Hdf Pandas2 population_frame
                (Frame (RangeIndex 1 4)
                   [(lit "State", text ["Ohio"; "Utah"; "Iowa"]%string);
                    (lit "Population1",
                     Float64Col [Some (Dec 1234 0); Some (Dec 5678 0); None])]))
      as [_ Hfwd]; [vm_compute; reflexivity|].
    apply (Hfwd eq_refl (lit "Population1") population_column).
    + right. left. reflexivity.
    + reflexivity.
Defined.

(** C5. What the code does with the two columns.  In ["Alabama", "Alaska",
    "1"] the match values are "", "" and "1"; the empty ones are left out of
    the count, so the fraction is 1 of 1, not 1 of 3, and the column becomes
    the numeric column [null, null, 1]: the two names are lost.  In ["1",
    "2", "x1"] the match values are "1", "2" and "1", the fraction is 1.0
    and the column becomes the numeric column [1, 2, 1]. *)
Theorem stripped_ratio_examples :
  cleaned_for_match states_column = [lit ""; lit ""; lit "1"]
  /\ non_null states_column = [lit "1"]
  /\ map matches_number (non_null states_column) = [true]
  /\ coerce_series states_column = Float64Col [None; None; Some (Dec 1 0)]
  /\ cleaned_for_match x1_column = [lit "1"; lit "2"; lit "1"]
  /\ map matches_number (non_null x1_column) = [true; true; true]
  /\ numeric_values (coerce_series x1_column)
     = Some [Some (Dec 1 0); Some (Dec 2 0); Some (Dec 1 0)].
Proof. repeat split; vm_compute; reflexivity. Qed.

(** The column ["Alabama", "Alaska", "1"] does not stay text, alone in a
    table or through the whole normalizer, on any pandas. *)
Lemma states_column_is_coerced :
  is_object (coerce_series states_column) <> true
  /\ forall v, clean_dataframe v states_frame
       = Ok (Frame (RangeIndex 1 4)
               [(lit "State", Float64Col [None; None; Some (Dec 1 0)])]).
Proof.
  split; [vm_compute; discriminate | intros []; vm_compute; reflexivity].
Qed.

Section IndexClaims.

Lemma find_first (A : Type) (f : A -> bool) (l : list A) (x : A) :
  find f l = Some x ->
  exists before after,
    l = before ++ x :: after /\ f x = true
    /\ Forall (fun y => f y = false) before.
Proof.
  induction l as [|a l IH]; [discriminate|]. simpl.
  destruct (f a) eqn:E.
  - intros H; inversion H; subst. exists [], l. auto.
  - intros H. destruct (IH H) as (b & t & -> & Hx & Hb).
    exists (a :: b), t. auto.
Qed.

Lemma prepared_len (df : DataFrame) (l : str) (c : column) :
  well_formed df -> In (l, c) (prepared df) -> col_len c = nrows df.
Proof.
  intros Hwf Hin. apply prepared_In in Hin.
  destruct Hin as (l0 & c0 & Hin & _ & -> & _).
  rewrite coerce_series_len.
  unfold well_formed in Hwf. rewrite Forall_forall in Hwf.
  apply (Hwf (l0, c0) Hin).
Qed.

Lemma drop_not_In (cols : list (str * column)) (l : str) :
  ~ In l (map fst (drop cols l)).
Proof.
  intros H. apply in_map_iff in H. destruct H as ([l' c] & E & H).
  cbn [fst] in E. subst l'. unfold drop in H. apply filter_In in H.
  destruct H as [_ H]. cbn [fst] in H. now rewrite str_eqb_refl in H.
Qed.

(** C2. The candidate is the first column, from the left, whose trimmed
    label matches the index-like pattern.  When each of its cells, reduced
    to digits, signs and points, parses to a whole number and these numbers
    are pairwise distinct, the column is taken: where [pd.Int64Index]
    exists the numbers are the row index, in row order, and the column is
    gone from the result; where it does not, the last block raises an
    [AttributeError] and no table is returned.  When the test fails, or
    when there is no candidate, no column is dropped and the row index is
    1, 2, ..., [nrows].  An int64 candidate of pairwise distinct values
    always passes the test.  The table ["id" = 3, 1, 2; "State"] gives the
    row index 3, 1, 2 on pandas 1.x and the exception from 2.0 on. *)
Theorem row_index_assignment (v : pandas) (df : DataFrame) :
  well_formed df -> exact_frame df = true ->
  empty df = false -> NoDup (map fst (prepared df)) ->
  let cols := prepared df in
  let n := nrows df in
  (forall l, candidate cols = Some l ->
     exists before after,
       map fst cols = before ++ l :: after
       /\ index_like_pattern (strip l) = true
       /\ Forall (fun l' => index_like_pattern (strip l') = false) before)
  /\ (forall l c ints,
        candidate cols = Some l -> In (l, c) cols -> index_values_of c ints ->
        (has_Int64Index v = true ->
         exists df',
           clean_dataframe v df = Ok df'
           /\ index_values (df_index df') = map IntKey ints
           /\ df_columns df' = drop cols l
           /\ ~ In l (labels df'))
        /\ (has_Int64Index v = false ->
            clean_dataframe v df = Raise AttributeError))
  /\ (forall l c,
        candidate cols = Some l -> In (l, c) cols ->
        ~ (exists ints, index_values_of c ints) ->
        clean_dataframe v df = Ok (Frame (RangeIndex 1 (Z.of_nat n + 1)) cols))
  /\ (candidate cols = None ->
      clean_dataframe v df = Ok (Frame (RangeIndex 1 (Z.of_nat n + 1)) cols))
  /\ index_values (RangeIndex 1 (Z.of_nat n + 1)) = one_based n
  /\ (forall l vals,
        candidate cols = Some l -> In (l, Int64Col vals) cols -> NoDup vals ->
        index_values_of (Int64Col vals) vals).
Proof.
  intros Hwf _ He Hnd cols n.
  pose proof (clean_dataframe_cases v df He Hnd) as Hcases. fold cols in Hcases.
  assert (Huniq : forall l c, candidate cols = Some l -> In (l, c) cols ->
            clean_dataframe v df =
            if adoptable n c
            then
              if has_Int64Index v
              then Ok (Frame (Int64Index (astype_int (conv c))) (drop cols l))
              else Raise AttributeError
            else Ok (Frame (RangeIndex 1 (Z.of_nat n + 1)) cols)).
  { intros l c Hc Hin. rewrite Hc in Hcases.
    destruct Hcases as (c' & Hin' & E).
    assert (c' = c); [|subst; exact E].
    pose proof (@getitem_unique cols l c Hnd Hin) as H1.
    pose proof (@getitem_unique cols l c' Hnd Hin') as H2. congruence. }
  split; [|split; [|split; [|split; [|split]]]].
  - intros l Hc. unfold candidate in Hc. now apply find_first in Hc.
  - intros l c ints Hc Hin Hints. rewrite (Huniq l c Hc Hin).
    destruct (adoptable_spec c) as [Hiff Hvals].
    rewrite (@prepared_len df l c Hwf Hin) in Hiff. fold n in Hiff.
    replace (adoptable n c) with true
      by (symmetry; apply Hiff; now exists ints).
    split; intros Hv; rewrite Hv; [|reflexivity].
    eexists. split; [reflexivity|]. cbn [df_index df_columns index_values].
    repeat split.
    + f_equal. now apply Hvals.
    + apply drop_not_In.
  - intros l c Hc Hin Hnot. rewrite (Huniq l c Hc Hin).
    destruct (adoptable_spec c) as [Hiff _].
    rewrite (@prepared_len df l c Hwf Hin) in Hiff. fold n in Hiff.
    destruct (adoptable n c); [|reflexivity].
    exfalso. apply Hnot. now apply Hiff.
  - intros Hc. now rewrite Hc in Hcases.
  - apply index_values_one_based.
  - intros l vals _ _ Hvals. now apply int64_index_values.
Qed.

Lemma row_index_assignment_witness :
  (exists df',
     clean_dataframe Pandas1 indexed_frame = Ok df'
     /\ index_values (df_index df') = [IntKey 3; IntKey 1; IntKey 2]
     /\ df_columns df' = [(lit "State", text ["Ohio"; "Utah"; "Iowa"]%string)]
     /\ ~ In (lit "id") (labels df'))
  /\ clean_dataframe Pandas2 indexed_frame = Raise AttributeError.
Proof.
  assert (Hwf : well_formed indexed_frame).
  { repeat constructor. }
  assert (Hex : exact_frame indexed_frame = true) by reflexivity.
  assert (He : empty indexed_frame = false) by reflexivity.
  assert (Hnd : NoDup (map fst (prepared indexed_frame))).
  { vm_compute. repeat constructor; simpl; intuition discriminate. }
  assert (Hc : candidate (prepared indexed_frame) = Some (lit "id"))
    by (vm_compute; reflexivity).
  assert (Hin : In (lit "id", Int64Col [3; 1; 2]%Z) (prepared indexed_frame))
    by (left; vm_compute; reflexivity).
  assert (Hints : index_values_of (Int64Col [3; 1; 2]%Z) [3; 1; 2]%Z).
  { split.
    - repeat constructor; left; vm_compute; reflexivity.
    - repeat constructor; simpl; intuition discriminate. }
  split.
  - destruct (@row_index_assignment Pandas1 indexed_frame Hwf Hex He Hnd)
      as (_ & Hadopt & _).
    apply (proj1 (Hadopt _ _ _ Hc Hin Hints)). reflexivity.
  - destruct (@row_index_assignment Pandas2 indexed_frame Hwf Hex He Hnd)
      as (_ & Hadopt & _).
    apply (proj2 (Hadopt _ _ _ Hc Hin Hints)). reflexivity.
Defined.

Lemma kept_labels_of_prepared (df : DataFrame) :
  map fst (prepared df) = kept_labels df.
Proof.
  rewrite prepared_labels. unfold kept_labels, drop_unnamed, renamed, labels.
  induction (df_columns df) as [|[l c] cols IH]; [reflexivity|].
  cbn [map filter fst snd].
  destruct (negb (prefixb (lit "Unnamed") (clean_colname l)));
    cbn [map fst]; now rewrite IH.
Qed.

Lemma labels_of_drop (cols : list (str * column)) (l : str) :
  map fst (drop cols l) = filter (fun x => negb (str_eqb x l)) (map fst cols).
Proof.
  unfold drop. induction cols as [|[l0 c] cols IH]; [reflexivity|].
  cbn [map filter fst]. destruct (negb (str_eqb l0 l)); cbn [map fst];
    now rewrite IH.
Qed.








End IndexClaims.

Section SecondPass.

(** The prepared columns of a table are prepared into themselves when
    "Nov-15" occurs in none of their labels. *)
Lemma prepared_fixed (df : DataFrame) (idx : index) :
  (forall l, In l (map fst (prepared df)) -> occurs (lit "Nov-15") l = false) ->
  prepared (Frame idx (prepared df)) = prepared df.
Proof.
  intros Hnov. unfold prepared at 1. unfold renamed. cbn [df_columns].
  assert (Hren : map (fun lc : str * column => (clean_colname (fst lc), snd lc))
                   (prepared df) = prepared df).
  { rewrite <- (map_id (prepared df)) at 2. apply map_ext_in.
    intros [l c] Hin. cbn [fst snd]. f_equal.
    pose proof (in_map fst _ _ Hin) as Hl. cbn [fst] in Hl.
    apply prepared_In in Hin. destruct Hin as (l0 & c0 & _ & -> & _ & _).
    apply clean_colname_idempotent. now apply Hnov. }
  rewrite Hren.
  assert (Hdrop : drop_unnamed (prepared df) = prepared df).
  { unfold drop_unnamed. apply filter_all. intros [l c] Hin.
    apply prepared_In in Hin. destruct Hin as (l0 & c0 & _ & _ & _ & Hp).
    cbn [fst]. now rewrite Hp. }
  rewrite Hdrop.
  rewrite <- (map_id (prepared df)) at 2. apply map_ext_in.
  intros [l c] Hin. cbn [fst snd]. f_equal.
  apply prepared_In in Hin. destruct Hin as (l0 & c0 & _ & _ & -> & _).
  apply coerce_series_fixed.
Qed.

Lemma empty_false (df : DataFrame) :
  empty df = false <-> nrows df <> 0 /\ df_columns df <> [].
Proof.
  unfold empty. rewrite orb_false_iff, !Nat.eqb_neq.
  destruct (df_columns df); simpl; intuition congruence.
Qed.

(** The columns of a returned table are prepared into themselves when
    "Nov-15" occurs in none of their labels. *)
Lemma result_columns_fixed (v : pandas) (df df' : DataFrame) (idx : index) :
  clean_dataframe v df = Ok df' -> empty df = false ->
  (forall l, In l (labels df') -> occurs (lit "Nov-15") l = false) ->
  prepared (Frame idx (df_columns df')) = df_columns df'.
Proof.
  intros H He Hnov.
  pose proof (clean_dataframe_incl v df H He) as Hincl.
  unfold prepared, drop_unnamed, renamed. cbn [df_columns].
  rewrite <- (map_id (df_columns df')) at 2.
  rewrite filter_all.
  - rewrite map_map. apply map_ext_in. intros [l c] Hin. cbn [fst snd].
    pose proof (in_map fst _ _ Hin) as Hl. cbn [fst] in Hl.
    apply Hincl, prepared_In in Hin.
    destruct Hin as (l0 & c0 & _ & -> & -> & _).
    f_equal; [|apply coerce_series_fixed].
    apply clean_colname_idempotent. now apply Hnov.
  - intros [l c] Hin. apply in_map_iff in Hin.
    destruct Hin as ([l1 c1] & E & Hin). cbn [fst snd] in E.
    injection E as <- <-. cbn [fst].
    pose proof (in_map fst _ _ Hin) as Hl. cbn [fst] in Hl.
    apply Hincl, prepared_In in Hin.
    destruct Hin as (l0 & c0 & _ & -> & _ & Hp).
    rewrite clean_colname_idempotent by (now apply Hnov). now rewrite Hp.
Qed.

(** C6, as the code has it.  A second pass returns the table of the first
    pass again, with the same columns and the same values of the row index,
    when the table the first pass returned is not one of rows without
    columns, "Nov-15" occurs in none of its labels, its row index is 1, 2,
    ..., and no index-like column of it passes the test of the index step.
    The last two hold of every table whose row index the first pass did not
    take from a column, and the second pass then returns that very
    table. *)
Theorem clean_dataframe_idempotent (v : pandas) (df df' : DataFrame) :
  well_formed df ->
  clean_dataframe v df = Ok df' ->
  (df_columns df' = [] -> nrows df' = 0) ->
  (forall l, In l (labels df') -> occurs (lit "Nov-15") l = false) ->
  (index_values (df_index df') = one_based (nrows df') ->
   (forall l c, candidate (df_columns df') = Some l ->
      In (l, c) (df_columns df') -> adoptable (nrows df') c = false) ->
   exists df'', clean_dataframe v df' = Ok df'' /\ same_table df'' df')
  /\ ((forall vals, df_index df' <> Int64Index vals) ->
      index_values (df_index df') = one_based (nrows df')
      /\ (forall l c, candidate (df_columns df') = Some l ->
            In (l, c) (df_columns df') -> adoptable (nrows df') c = false)
      /\ clean_dataframe v df' = Ok df').
Proof.
  intros Hwf H Hcols Hnov. destruct (empty df) eqn:He.
  { rewrite (clean_dataframe_empty v df He) in H. inversion H; subst.
    split.
    - intros _ _. exists empty_frame. split; [reflexivity | split; reflexivity].
    - intros _. split; [reflexivity|]. split; [discriminate | reflexivity]. }
  pose proof (clean_dataframe_ok_inv v df H He) as Hnd.
  assert (Hn : nrows df' = nrows df).
  { destruct (clean_dataframe_columns v df H He)
      as [(Hi & _)|(l & c & _ & Hin & _ & _ & Hi & _)];
      unfold nrows at 1; rewrite Hi; cbn [index_len].
    - lia.
    - rewrite astype_int_conv_len. eapply prepared_len; eauto. }
  assert (Hnd' : NoDup (map fst (df_columns df'))).
  { destruct (clean_dataframe_columns v df H He)
      as [(_ & -> & _)|(l & c & _ & _ & _ & _ & _ & ->)]; [assumption|].
    rewrite labels_of_drop. now apply NoDup_filter. }
  assert (Hp : prepared df' = df_columns df').
  { destruct df' as [idx' cols']. cbn [df_columns].
    apply (@result_columns_fixed v df (Frame idx' cols') idx' H He Hnov). }
  assert (He' : empty df' = false).
  { apply empty_false in He. destruct He as [Hr _].
    apply empty_false. rewrite Hn. split; [assumption|].
    intros E. apply Hcols in E. lia. }
  assert (Hsecond :
    (forall l c, candidate (df_columns df') = Some l ->
       In (l, c) (df_columns df') -> adoptable (nrows df') c = false) ->
    clean_dataframe v df'
    = Ok (Frame (RangeIndex 1 (Z.of_nat (nrows df') + 1)) (df_columns df'))).
  { intros Hset. rewrite <- Hp in Hnd'.
    pose proof (clean_dataframe_cases v df' He' Hnd') as Hc.
    rewrite Hp in Hc.
    destruct (candidate (df_columns df')) as [l|]; [|exact Hc].
    destruct Hc as (c & Hin & E). rewrite E.
    now rewrite (Hset l c eq_refl Hin). }
  split.
  - intros Hidx Hset. eexists. split; [apply Hsecond, Hset|].
    split; [reflexivity|]. cbn [df_index].
    now rewrite index_values_one_based.
  - intros Hnot.
    destruct (clean_dataframe_columns v df H He)
      as [(Hi & Hc & Hset)|(l & c & _ & _ & _ & _ & Hi & _)];
      [|exfalso; apply (Hnot _ Hi)].
    assert (Hset' : forall l c, candidate (df_columns df') = Some l ->
              In (l, c) (df_columns df') -> adoptable (nrows df') c = false).
    { rewrite Hc, Hn. exact Hset. }
    split; [|split; [exact Hset'|]].
    + rewrite Hi, Hn. apply index_values_one_based.
    + rewrite (Hsecond Hset'). rewrite Hn. destruct df' as [idx' cols'].
      cbn [df_index df_columns] in *. now subst idx'.
Qed.

Lemma clean_dataframe_idempotent_witness :
  clean_dataframe Pandas2
    (Frame (RangeIndex 1 4)
       [(lit "State", text ["Ohio"; "Utah"; "Iowa"]%string);
        (lit "Population1",
         Float64Col [Some (Dec 1234 0); Some (Dec 5678 0); None])])
  = Ok (Frame (RangeIndex 1 4)
          [(lit "State", text ["Ohio"; "Utah"; "Iowa"]%string);
           (lit "Population1",
            Float64Col [Some (Dec 1234 0); Some (Dec 5678 0); None])])
  /\ exists df'',
       clean_dataframe Pandas1
         (Frame (Int64Index [1; 2; 3]%Z)
            [(lit "State", text ["Ohio"; "Utah"; "Iowa"]%string)])
       = Ok df''
       /\ same_table df''
            (Frame (Int64Index [1; 2; 3]%Z)
               [(lit "State", text ["Ohio"; "Utah"; "Iowa"]%string)]).
Proof.
  split.
  - assert (Hwf : well_formed population_frame) by (repeat constructor).
    assert (E : clean_dataframe Pandas2 population_frame
      = Ok (Frame (RangeIndex 1 4)
              [(lit "State", text ["Ohio"; "Utah"; "Iowa"]%string);
               (lit "Population1",
                Float64Col [Some (Dec 1234 0); Some (Dec 5678 0); None])]))
      by (vm_compute; reflexivity).
    apply (proj2 (@clean_dataframe_idempotent Pandas2 population_frame _ Hwf E
                    ltac:(discriminate)
                    ltac:(intros l [<-|[<-|[]]]; vm_compute; reflexivity))).
    intros vals. discriminate.
  - set (df := Frame (RangeIndex 0 3)
                 [(lit "id", Int64Col [1; 2; 3]%Z);
                  (lit "State", text ["Ohio"; "Utah"; "Iowa"]%string)]).
    assert (Hwf : well_formed df) by (repeat constructor).
    assert (E : clean_dataframe Pandas1 df
      = Ok (Frame (Int64Index [1; 2; 3]%Z)
              [(lit "State", text ["Ohio"; "Utah"; "Iowa"]%string)]))
      by (vm_compute; reflexivity).
    apply (proj1 (@clean_dataframe_idempotent Pandas1 df _ Hwf E
                    ltac:(discriminate)
                    ltac:(intros l [<-|[]]; vm_compute; reflexivity))).
    + vm_compute. reflexivity.
    + intros l c Hc. vm_compute in Hc. discriminate Hc.
Defined.

(** C6 as stated fails, on every pandas: the first pass leaves three rows
    without columns of a table whose only column is unnamed, and the second
    pass returns the empty table; the first pass cleans the label "Nov?15"
    into "Nov-15", and the second pass cleans it into "11-15".  Where
    [pd.Int64Index] exists it fails for a derived row index too: the first
    pass takes the index 3, 1, 2 from the column "id", the second pass
    resets it and numbers the rows 1, 2, 3; and after the index 1, 2, 3
    has been taken from "id", the second pass takes 7, 8, 9 from the
    column "row" and drops that column. *)
Lemma second_pass_differs :
  (forall v, exists r1 r2,
     clean_dataframe v
       (Frame (RangeIndex 0 3) [(lit "Unnamed: 0", Int64Col [0; 1; 2]%Z)])
     = Ok r1
     /\ clean_dataframe v r1 = Ok r2
     /\ nrows r1 = 3 /\ nrows r2 = 0
     /\ ~ same_table r2 r1)
  /\ (forall v, exists r1 r2,
        clean_dataframe v
          (Frame (RangeIndex 0 1) [(lit "Nov?15", Int64Col [7]%Z)])
        = Ok r1
        /\ clean_dataframe v r1 = Ok r2
        /\ labels r1 = [lit "Nov-15"] /\ labels r2 = [lit "11-15"]
        /\ ~ same_table r2 r1)
  /\ (exists r1 r2,
        clean_dataframe Pandas1 indexed_frame = Ok r1
        /\ clean_dataframe Pandas1 r1 = Ok r2
        /\ index_values (df_index r1) = [IntKey 3; IntKey 1; IntKey 2]
        /\ index_values (df_index r2) = [IntKey 1; IntKey 2; IntKey 3]
        /\ ~ same_table r2 r1)
  /\ (exists r1 r2,
        clean_dataframe Pandas1
          (Frame (RangeIndex 0 3)
             [(lit "id", Int64Col [1; 2; 3]%Z);
              (lit "row", Int64Col [7; 8; 9]%Z);
              (lit "State", text ["Ohio"; "Utah"; "Iowa"]%string)])
        = Ok r1
        /\ clean_dataframe Pandas1 r1 = Ok r2
        /\ index_values (df_index r1) = [IntKey 1; IntKey 2; IntKey 3]
        /\ labels r1 = [lit "row"; lit "State"]
        /\ index_values (df_index r2) = [IntKey 7; IntKey 8; IntKey 9]
        /\ labels r2 = [lit "State"]
        /\ ~ same_table r2 r1).
Proof.
  split; [|split; [|split]].
  - intros v. exists (Frame (RangeIndex 1 4) []), empty_frame.
    repeat split; try (destruct v; vm_compute; reflexivity).
    intros [_ H]. vm_compute in H. discriminate H.
  - intros v.
    exists (Frame (RangeIndex 1 2) [(lit "Nov-15", Int64Col [7]%Z)]),
           (Frame (RangeIndex 1 2) [(lit "11-15", Int64Col [7]%Z)]).
    repeat split; try (destruct v; vm_compute; reflexivity).
    intros [H _]. vm_compute in H. discriminate H.
  - exists (Frame (Int64Index [3; 1; 2]%Z)
              [(lit "State", text ["Ohio"; "Utah"; "Iowa"]%string)]),
           (Frame (RangeIndex 1 4)
              [(lit "State", text ["Ohio"; "Utah"; "Iowa"]%string)]).
    repeat split; try (vm_compute; reflexivity).
    intros [_ H]. vm_compute in H. discriminate H.
  - exists (Frame (Int64Index [1; 2; 3]%Z)
              [(lit "row", Int64Col [7; 8; 9]%Z);
               (lit "State", text ["Ohio"; "Utah"; "Iowa"]%string)]),
           (Frame (Int64Index [7; 8; 9]%Z)
              [(lit "State", text ["Ohio"; "Utah"; "Iowa"]%string)]).
    repeat split; try (vm_compute; reflexivity).
    intros [H _]. vm_compute in H. discriminate H.
Qed.

End SecondPass.

(** C8. The table read from a file whose header is [A,A ]: both labels
    clean to "A", and the coercion loop stops at the first of them with an
    [AttributeError], a frame having no [dtype]; no table is returned, on
    any pandas. *)
Theorem duplicate_labels_raise :
  map clean_colname (labels duplicate_frame) = [lit "A"; lit "A"]
  /\ getitem (drop_unnamed (renamed duplicate_frame)) (lit "A")
     = SubFrame [text ["x"; "y"]%string; Int64Col [1; 2]%Z]
  /\ forall v, clean_dataframe v duplicate_frame = Raise AttributeError.
Proof.
  split; [|split]; [vm_compute; reflexivity ..|].
  intros []; vm_compute; reflexivity.
Qed.

(** C3. On any pandas: a path that does not exist gives the empty table
    and no read; a file that neither encoding decodes gives the empty table
    after one read with each encoding; a file that only the fallback
    decodes is normalized from the second read.  A file whose header is
    [A,A ] is read once, and the [AttributeError] of the normalizer leaves
    [load_csv]. *)
Theorem load_csv_outcomes :
  forall v,
  load_csv v missing_fs (lit "a.csv") = (Ok empty_frame, [])
  /\ load_csv v unreadable_fs (lit "a.csv") = (Ok empty_frame, [Utf8; Latin1])
  /\ fst (load_csv v latin1_fs (lit "a.csv")) = clean_dataframe v population_frame
  /\ snd (load_csv v latin1_fs (lit "a.csv")) = [Utf8; Latin1]
  /\ clean_dataframe v (Frame (RangeIndex 0 0) [(lit "State", ObjectCol [])])
     = Ok empty_frame
  /\ load_csv v duplicate_fs (lit "a.csv") = (Raise AttributeError, [Utf8]).
Proof. intros []; repeat split; vm_compute; reflexivity. Qed.

(** What [load_csv] reads: nothing for a missing path, the file once when
    it decodes, once more under the fallback encoding when it does not; it
    returns the empty table whenever nothing could be read. *)
Lemma load_csv_reads (v : pandas) (fs : file_system) (name : str) :
  (path_exists fs name = false -> load_csv v fs name = (Ok empty_frame, []))
  /\ (forall df, path_exists fs name = true -> read_csv fs name Utf8 = Ok df ->
        load_csv v fs name = (clean_dataframe v df, [Utf8]))
  /\ (forall e df, path_exists fs name = true ->
        read_csv fs name Utf8 = Raise e -> read_csv fs name Latin1 = Ok df ->
        load_csv v fs name = (clean_dataframe v df, [Utf8; Latin1]))
  /\ (forall e e', path_exists fs name = true ->
        read_csv fs name Utf8 = Raise e -> read_csv fs name Latin1 = Raise e' ->
        load_csv v fs name = (Ok empty_frame, [Utf8; Latin1])).
Proof.
  unfold load_csv. repeat split.
  - now intros ->.
  - now intros df -> ->.
  - now intros e df -> -> ->.
  - now intros e e' -> -> ->.
Qed.

(** ** Loose comparison of column names *)

Section LooseNames.

Local Abbreviation norm s := (_normalize_col_name (@Some str s)) (only parsing).

Lemma normalize_app (a b : str) :
  norm (a ++ b)
  = norm a ++ norm b.
Proof. unfold _normalize_col_name, keep. now rewrite map_app, filter_app. Qed.

Lemma normalize_cons (c : ascii) (s : str) :
  norm (c :: s)
  = (if is_lower_alnum (py_lower c) then [py_lower c] else [])
    ++ norm s.
Proof.
  unfold _normalize_col_name, keep. cbn [map filter].
  destruct (is_lower_alnum (py_lower c)); reflexivity.
Qed.

Lemma py_lower_alnum (c : ascii) : is_lower_alnum c = true -> py_lower c = c.
Proof.
  destruct c as [[] [] [] [] [] [] [] []]; vm_compute; intros H;
    first [reflexivity | discriminate H].
Qed.

Lemma space_not_alnum (c : ascii) :
  is_space c = true -> is_lower_alnum (py_lower c) = false.
Proof.
  destruct c as [[] [] [] [] [] [] [] []]; vm_compute; intros H;
    first [reflexivity | discriminate H].
Qed.

(** A replacement whose two texts have the same normal form does not show
    in the normal form. *)
Lemma normalize_replace (old new s : str) :
  old <> [] ->
  norm old = norm new ->
  norm (replace old new s) = norm s.
Proof.
  intros Hold E. pattern s. apply (replace_scan_ind (old := old)); [assumption| | |].
  - now rewrite replace_nil.
  - intros c t Hhit IH. rewrite replace_hit by assumption.
    rewrite (prefixb_split _ _ Hhit) at 2.
    now rewrite !normalize_app, IH, E.
  - intros c t Hmiss IH. rewrite replace_miss by assumption.
    now rewrite !normalize_cons, IH.
Qed.

Lemma normalize_sub_spaces (s : str) (b : bool) :
  norm (sub_spaces b s) = norm s.
Proof.
  revert b. induction s as [|c s IH]; intros b; [reflexivity|].
  cbn [sub_spaces]. destruct (is_space c) eqn:Hc.
  - rewrite (normalize_cons c s), (space_not_alnum c Hc). cbn [app].
    destruct b; [apply IH|].
    rewrite normalize_cons, IH. reflexivity.
  - now rewrite !normalize_cons, IH.
Qed.

Lemma normalize_spaces (a : str) :
  forallb is_space a = true -> norm a = [].
Proof.
  induction a as [|c a IH]; [reflexivity|]. cbn [forallb].
  rewrite andb_true_iff. intros [Hc Ha].
  now rewrite normalize_cons, (space_not_alnum c Hc), IH.
Qed.

Lemma lstrip_spaces (s : str) :
  exists a, s = a ++ lstrip s /\ forallb is_space a = true.
Proof.
  induction s as [|c s (a & E & Ha)]; [exists []; auto|].
  simpl. destruct (is_space c) eqn:Hc.
  - exists (c :: a). simpl. rewrite Hc, Ha. split; [now f_equal | reflexivity].
  - exists []. auto.
Qed.

Lemma rstrip_spaces (s : str) :
  exists t, s = rstrip s ++ t /\ forallb is_space t = true.
Proof.
  induction s as [|c s (t & E & Ht)]; [exists []; auto|].
  cbn [rstrip]. destruct (rstrip s) as [|d r].
  - simpl in E. subst t. destruct (is_space c) eqn:Hc.
    + exists (c :: s). simpl. now rewrite Hc, Ht.
    + exists s. auto.
  - exists t. split; [|assumption]. simpl. f_equal. exact E.
Qed.

Lemma normalize_strip (s : str) :
  norm (strip s) = norm s.
Proof.
  unfold strip. destruct (lstrip_spaces s) as (a & Ea & Ha).
  destruct (rstrip_spaces (lstrip s)) as (t & Et & Ht).
  rewrite Ea at 2. rewrite Et at 2.
  rewrite !normalize_app, (normalize_spaces a Ha), (normalize_spaces t Ht).
  now rewrite app_nil_r.
Qed.

(** X1. The normal form of a name holds lower-case letters and digits
    only, and it is its own normal form; [None] has the empty string as its
    normal form. *)
Theorem normalize_col_name_canonical (s : option str) :
  (forall c, In c (_normalize_col_name s) -> is_lower_alnum c = true)
  /\ norm (_normalize_col_name s) = _normalize_col_name s
  /\ _normalize_col_name None = [].
Proof.
  assert (H : forall c, In c (_normalize_col_name s) -> is_lower_alnum c = true).
  { destruct s as [s|]; [|intros c []]. unfold _normalize_col_name, keep.
    intros c Hc. now apply filter_In in Hc. }
  split; [exact H|]. split; [|reflexivity].
  revert H. generalize (_normalize_col_name s) as n. intros n H.
  unfold _normalize_col_name, keep.
  rewrite (map_ext_in py_lower (fun c => c)), map_id.
  - apply filter_all. exact H.
  - intros c Hc. apply py_lower_alnum. now apply H.
Qed.

(** X2. The normal form ignores case and every character that is not a
    letter or a digit of ASCII, wherever it stands: the label
    "Negligent Manslaughter" has the normal form of the hidden name
    "Negligent Man- slaughter". *)
Theorem normalize_col_name_loose :
  (forall a b c, is_lower_alnum (py_lower c) = false ->
     norm (a ++ c :: b) = norm (a ++ b))
  /\ (forall s, norm (map py_lower s)
               = norm s)
  /\ (forall a b, norm (a ++ b)
       = norm a ++ norm b).
Proof.
  split; [|split].
  - intros a b c Hc. rewrite !normalize_app, normalize_cons, Hc. reflexivity.
  - intros s. unfold _normalize_col_name, keep. rewrite map_map. f_equal.
    apply map_ext. intros c.
    destruct c as [[] [] [] [] [] [] [] []]; vm_compute; reflexivity.
  - apply normalize_app.
Qed.

Lemma normalize_col_name_loose_witness :
  norm (lit "Negligent Man" ++ "-"%char :: lit " slaughter")
  = norm (lit "Negligent Man" ++ lit " slaughter").
Proof.
  apply (proj1 normalize_col_name_loose). vm_compute. reflexivity.
Defined.

(** X3. Header cleaning does not change the normal form of a label, as
    long as the substitution of "Nov-15" finds nothing to replace. *)
Theorem normalize_after_cleaning (s : str) :
  occurs (lit "Nov-15")
    (replace (ARTIFACT ++ lit "15") (lit "-15")
       (replace ARTIFACT (lit "-") (replace [NL] [SP] s))) = false ->
  norm (clean_colname s) = norm s.
Proof.
  intros H. unfold clean_colname.
  rewrite normalize_strip, normalize_sub_spaces.
  rewrite (normalize_replace (old := lit "?")); [|discriminate|reflexivity].
  rewrite (replace_absent (old := lit "Nov-15")); [|discriminate|exact H].
  rewrite (normalize_replace (old := ARTIFACT ++ lit "15"));
    [|discriminate|reflexivity].
  rewrite (normalize_replace (old := ARTIFACT)); [|discriminate|reflexivity].
  rewrite (normalize_replace (old := [NL])); [|discriminate|reflexivity].
  reflexivity.
Qed.

Lemma normalize_after_cleaning_witness :
  norm (clean_colname (lit "Kidnapping/" ++ [NL] ++ lit "Abduction"))
  = norm (lit "Kidnapping/" ++ [NL] ++ lit "Abduction").
Proof.
  apply normalize_after_cleaning. vm_compute. reflexivity.
Defined.

(** X4. The visible columns are columns of the table, in their order; a
    table with columns has visible ones; when some column is not hidden the
    visible columns are exactly those, and when all are hidden all are
    shown. *)
Theorem visible_cols_spec (columns : list str) :
  let hidden c := mem (norm c) HIDDEN_SET in
  (columns <> [] -> visible_cols columns <> [])
  /\ incl (visible_cols columns) columns
  /\ ((exists c, In c columns /\ hidden c = false) ->
      visible_cols columns = filter (fun c => negb (hidden c)) columns)
  /\ ((forall c, In c columns -> hidden c = true) ->
      visible_cols columns = columns).
Proof.
  intros hidden.
  assert (Hv : visible_cols columns =
               match filter (fun c => negb (hidden c)) columns with
               | [] => columns
               | _ :: _ => filter (fun c => negb (hidden c)) columns
               end) by reflexivity.
  rewrite Hv. clear Hv.
  destruct (filter (fun c => negb (hidden c)) columns) as [|v vs] eqn:E.
  - cbv beta iota. split; [auto|]. split; [apply incl_refl|]. split; [|auto].
    intros (c & Hin & Hc). exfalso.
    assert (Hf : In c (filter (fun c => negb (hidden c)) columns))
      by (apply filter_In; split; [assumption | now rewrite Hc]).
    now rewrite E in Hf.
  - cbv beta iota. split; [|split; [|split]].
    + discriminate.
    + rewrite <- E. intros x Hx. now apply filter_In in Hx.
    + reflexivity.
    + intros Hall. exfalso.
      assert (Hf : In v (filter (fun c => negb (hidden c)) columns))
        by (rewrite E; now left).
      apply filter_In in Hf. destruct Hf as [Hin Hv].
      rewrite (Hall v Hin) in Hv. discriminate.
Qed.

Lemma visible_cols_spec_witness :
  visible_cols [lit "State"; lit "ORI"; lit "Rape"] = [lit "ORI"]
  /\ visible_cols [lit "State"; lit "Rape"] = [lit "State"; lit "Rape"].
Proof.
  split.
  - destruct (visible_cols_spec [lit "State"; lit "ORI"; lit "Rape"])
      as (_ & _ & H & _).
    rewrite H; [vm_compute; reflexivity|].
    exists (lit "ORI"). split; [right; left; reflexivity | vm_compute; reflexivity].
  - destruct (visible_cols_spec [lit "State"; lit "Rape"]) as (_ & _ & _ & H).
    apply H. intros c Hc. simpl in Hc.
    destruct Hc as [Hc|[Hc|Hc]]; [subst c; vm_compute; reflexivity ..|destruct Hc].
Defined.

End LooseNames.

(** ** Pages *)

Section Pages.

Variable A : Type.

Open Scope Z_scope.

Lemma page_size_cases (x : Z) :
  let size := if existsb (Z.eqb x) page_size_options then x else 20 in
  (size = 10 \/ size = 20 \/ size = 50 \/ size = 100)
  /\ (In x page_size_options -> size = x).
Proof.
  cbv zeta. unfold page_size_options. cbn [existsb In].
  destruct (Z.eqb_spec x 10); [subst; cbn; auto|].
  destruct (Z.eqb_spec x 20); [subst; cbn; auto|].
  destruct (Z.eqb_spec x 50); [subst; cbn; auto 6|].
  destruct (Z.eqb_spec x 100); [subst; cbn; auto 6|].
  cbn. split; [auto|]. intros [H|[H|[H|[H|[]]]]]; congruence.
Qed.

Lemma page_size_default (x : Z) :
  ~ In x page_size_options ->
  (if existsb (Z.eqb x) page_size_options then x else 20) = 20.
Proof.
  intros H. destruct (existsb (Z.eqb x) page_size_options) eqn:E; [|reflexivity].
  exfalso. apply H. apply existsb_exists in E. destruct E as (y & Hy & E).
  apply Z.eqb_eq in E. now subst.
Qed.

(** The page block in closed form. *)
Lemma paginate_eq (st : session) (rows : list A) :
  let n := Z.of_nat (length rows) in
  let size :=
    if existsb (Z.eqb (agency_page_size st)) page_size_options
    then agency_page_size st else 20 in
  let tp := Z.max 1 ((n + size - 1) / size) in
  let p := Z.max 1 (Z.min (agency_page st) tp) in
  paginate st rows =
  PageView (Session p size) tp ((p - 1) * size)
    (Z.min ((p - 1) * size + size) n)
    (if n >? 0 then
       Some (RangeIndex ((p - 1) * size + 1)
               ((p - 1) * size + 1
                + Z.of_nat (length (iloc rows ((p - 1) * size)
                                      (Z.min ((p - 1) * size + size) n)))),
             iloc rows ((p - 1) * size) (Z.min ((p - 1) * size + size) n))
     else None).
Proof.
  intros n size tp p. unfold paginate. fold n. fold size. fold tp.
  cbn [agency_page agency_page_size].
  assert (Hp : agency_page
                 (if agency_page
                       (if agency_page st <? 1 then Session 1 size
                        else Session (agency_page st) size) >? tp
                  then Session tp size
                  else if agency_page st <? 1 then Session 1 size
                       else Session (agency_page st) size) = p).
  { subst p. destruct (Z.ltb_spec (agency_page st) 1); cbn [agency_page];
      destruct (Z.gtb_spec 1 tp); destruct (Z.gtb_spec (agency_page st) tp);
      cbn [agency_page]; subst tp; lia. }
  assert (Hs : (if agency_page
                      (if agency_page st <? 1 then Session 1 size
                       else Session (agency_page st) size) >? tp
                then Session tp size
                else if agency_page st <? 1 then Session 1 size
                     else Session (agency_page st) size) = Session p size).
  { rewrite <- Hp.
    destruct (agency_page st <? 1); cbn [agency_page agency_page_size];
      match goal with |- context [if ?b then _ else _] => destruct b end;
      reflexivity. }
  cbn [agency_page agency_page_size] in *.
  destruct (agency_page st <? 1); cbn [agency_page agency_page_size] in *;
    rewrite Hs; cbn [agency_page]; reflexivity.
Qed.

Lemma iloc_within (rows : list A) (a b : Z) :
  0 <= a <= b -> b <= Z.of_nat (length rows) ->
  iloc rows a b = firstn (Z.to_nat (b - a)) (skipn (Z.to_nat a) rows)
  /\ Z.of_nat (length (iloc rows a b)) = b - a.
Proof.
  intros Ha Hb. unfold iloc, slice_bound.
  destruct (Z.ltb_spec a 0); [lia|]. destruct (Z.ltb_spec b 0); [lia|].
  rewrite !Z.min_l by lia. split; [reflexivity|].
  rewrite length_firstn, length_skipn. lia.
Qed.

(** The facts on the bounds that every statement on pages rests on. *)
Lemma paginate_slice (st : session) (rows : list A) :
  let pv := paginate st rows in
  In (agency_page_size (pv_session pv)) page_size_options
  /\ 1 <= agency_page (pv_session pv) <= total_pages pv
  /\ 0 <= start_idx pv <= end_idx pv
  /\ end_idx pv <= Z.of_nat (length rows).
Proof.
  cbv zeta. rewrite paginate_eq. cbn [pv_session total_pages start_idx end_idx
    agency_page agency_page_size].
  destruct (page_size_cases (agency_page_size st)) as [Hc _]. cbv zeta in Hc.
  set (size := if existsb (Z.eqb (agency_page_size st)) page_size_options
               then agency_page_size st else 20) in *.
  set (n := Z.of_nat (length rows)).
  assert (Hn : 0 <= n) by (subst n; lia).
  split; [unfold page_size_options; cbn [In]; intuition auto|].
  clearbody size n.
  destruct Hc as [->|[->|[->| ->]]];
    repeat split; try (Z.div_mod_to_equations; lia).
Qed.

(** X5. Whatever the session holds, the page block leaves a page size
    among 10, 20, 50 and 100 (the stored one when it is among them, 20 when
    it is not), a number of pages that is the least one covering the rows,
    a page number brought into 1 .. pages, and bounds of a slice within
    the rows, no longer than a page, and not empty when the table has
    rows. *)
Theorem paginate_bounds (st : session) (rows : list A) :
  let pv := paginate st rows in
  let n := Z.of_nat (length rows) in
  let size := agency_page_size (pv_session pv) in
  let p := agency_page (pv_session pv) in
  In size page_size_options
  /\ (In (agency_page_size st) page_size_options -> size = agency_page_size st)
  /\ (~ In (agency_page_size st) page_size_options -> size = 20)
  /\ 1 <= p <= total_pages pv
  /\ p = Z.max 1 (Z.min (agency_page st) (total_pages pv))
  /\ (total_pages pv - 1) * size < Z.max n 1 <= total_pages pv * size
  /\ start_idx pv = (p - 1) * size
  /\ 0 <= start_idx pv <= end_idx pv /\ end_idx pv <= n
  /\ end_idx pv - start_idx pv <= size
  /\ (0 < n -> start_idx pv < end_idx pv).
Proof.
  cbv zeta. rewrite paginate_eq. cbn [pv_session total_pages start_idx end_idx
    agency_page agency_page_size].
  destruct (page_size_cases (agency_page_size st)) as [Hc Hin]. cbv zeta in Hc, Hin.
  set (size := if existsb (Z.eqb (agency_page_size st)) page_size_options
               then agency_page_size st else 20) in *.
  set (n := Z.of_nat (length rows)).
  assert (Hn : 0 <= n) by (subst n; lia).
  split; [unfold page_size_options; cbn [In]; intuition auto|].
  split; [exact Hin|].
  split; [apply page_size_default|].
  clearbody size n.
  destruct Hc as [->|[->|[->| ->]]];
    repeat split; try (Z.div_mod_to_equations; lia).
Qed.

(** X6. When the table has rows, the page shown holds the rows from
    [start_idx] up to [end_idx], in their order, and the labels of its row
    index are their positions in the table, counted from 1; a table
    without rows shows no page. *)
Theorem paginate_page (st : session) (rows : list A) :
  let pv := paginate st rows in
  (rows <> [] ->
   exists idx page,
     page_df pv = Some (idx, page)
     /\ Z.of_nat (length page) = end_idx pv - start_idx pv
     /\ index_values idx
        = map (fun k => IntKey (start_idx pv + 1 + Z.of_nat k))
            (seq 0 (length page))
     /\ forall k, (k < length page)%nat ->
          nth_error page k = nth_error rows (Z.to_nat (start_idx pv) + k))
  /\ (rows = [] -> page_df pv = None).
Proof.
  cbv zeta. pose proof (paginate_slice st rows) as Hb. cbv zeta in Hb.
  destruct Hb as (_ & _ & Hse & Hen).
  rewrite paginate_eq in *.
  cbn [pv_session total_pages start_idx end_idx page_df
         agency_page agency_page_size] in *.
  set (size := if existsb (Z.eqb (agency_page_size st)) page_size_options
               then agency_page_size st else 20) in *.
  set (p := Z.max 1 (Z.min (agency_page st)
              (Z.max 1 ((Z.of_nat (length rows) + size - 1) / size)))) in *.
  set (a := (p - 1) * size) in *.
  set (b := Z.min (a + size) (Z.of_nat (length rows))) in *.
  split.
  - intros Hne.
    assert (Hn : (Z.of_nat (length rows) >? 0) = true).
    { apply Z.gtb_lt. clear -Hne. destruct rows; [congruence|].
      cbn [length]. lia. }
    rewrite Hn. destruct (@iloc_within rows a b Hse Hen) as [Ei El].
    eexists. eexists. split; [reflexivity|]. split; [exact El|]. split.
    + cbn [index_values].
      replace (Z.to_nat (a + 1 + Z.of_nat (length (iloc rows a b)) - (a + 1)))
        with (length (iloc rows a b)) by lia.
      reflexivity.
    + intros k Hk. rewrite Ei in Hk |- *.
      rewrite nth_error_firstn.
      rewrite length_firstn in Hk.
      replace (k <? Z.to_nat (b - a))%nat with true
        by (symmetry; apply Nat.ltb_lt; lia).
      now rewrite nth_error_skipn.
  - intros ->. reflexivity.
Qed.

(** X7. The pages share out the rows: the row at position [i] is on the
    page shown exactly when that page is number [i / size + 1].  Passing
    the session the block leaves through the block again changes
    nothing. *)
Theorem paginate_covers (st : session) (rows : list A) (i : Z) :
  let pv := paginate st rows in
  0 <= i < Z.of_nat (length rows) ->
  (start_idx pv <= i < end_idx pv
   <-> agency_page (pv_session pv) = i / agency_page_size (pv_session pv) + 1)
  /\ paginate (pv_session pv) rows = pv.
Proof.
  cbv zeta. intros Hi. split.
  - rewrite paginate_eq. cbn [pv_session total_pages start_idx end_idx
      agency_page agency_page_size].
    destruct (page_size_cases (agency_page_size st)) as [Hc _]. cbv zeta in Hc.
    set (size := if existsb (Z.eqb (agency_page_size st)) page_size_options
                 then agency_page_size st else 20) in *.
    set (n := Z.of_nat (length rows)) in *. clearbody size n.
    destruct Hc as [->|[->|[->| ->]]]; Z.div_mod_to_equations; lia.
  - pose proof (paginate_slice st rows) as Hb. cbv zeta in Hb.
    destruct Hb as (Hsize & Hp & _).
    rewrite (paginate_eq (pv_session (paginate st rows))).
    rewrite (paginate_eq st) in *.
    cbn [pv_session total_pages start_idx end_idx agency_page agency_page_size] in *.
    set (size := if existsb (Z.eqb (agency_page_size st)) page_size_options
                 then agency_page_size st else 20) in *.
    destruct (page_size_cases size) as [_ Hfix]. cbv zeta in Hfix.
    rewrite (Hfix Hsize).
    set (tp := Z.max 1 ((Z.of_nat (length rows) + size - 1) / size)) in *.
    replace (Z.max 1 (Z.min (Z.max 1 (Z.min (agency_page st) tp)) tp))
      with (Z.max 1 (Z.min (agency_page st) tp)) by lia.
    reflexivity.
Qed.

End Pages.

Lemma paginate_page_witness :
  (exists idx page,
     page_df (paginate (Session 7 33) (seq 0 45)) = Some (idx, page)
     /\ Z.of_nat (length page) = (45 - 40)%Z
     /\ index_values idx
        = map (fun k => IntKey (40 + 1 + Z.of_nat k)) (seq 0 (length page))
     /\ forall k, k < length page ->
          nth_error page k = nth_error (seq 0 45) (40 + k))
  /\ page_df (paginate (Session 7 33) (@nil nat)) = None.
Proof.
  split.
  - apply (proj1 (@paginate_page nat (Session 7 33) (seq 0 45))). discriminate.
  - apply (proj2 (@paginate_page nat (Session 7 33) (@nil nat))). reflexivity.
Defined.

Lemma paginate_covers_witness :
  ((start_idx (paginate (Session 7 33) (seq 0 45)) <= 42
      < end_idx (paginate (Session 7 33) (seq 0 45)))%Z
   <-> agency_page (pv_session (paginate (Session 7 33) (seq 0 45)))
       = (42 / agency_page_size (pv_session (paginate (Session 7 33) (seq 0 45)))
          + 1)%Z)
  /\ paginate (pv_session (paginate (Session 7 33) (seq 0 45))) (seq 0 45)
     = paginate (Session 7 33) (seq 0 45).
Proof.
  apply (@paginate_covers nat (Session 7 33) (seq 0 45) 42%Z). vm_compute.
  split; [discriminate | reflexivity].
Defined.

Lemma paginate_bounds_witness :
  agency_page_size (pv_session (paginate (Session 0 50) (seq 0 45))) = 50%Z
  /\ (start_idx (paginate (Session 0 50) (seq 0 45))
      < end_idx (paginate (Session 0 50) (seq 0 45)))%Z
  /\ agency_page_size (pv_session (paginate (Session 7 33) (seq 0 45))) = 20%Z.
Proof.
  destruct (@paginate_bounds nat (Session 0 50) (seq 0 45))
    as (_ & Hs & _ & _ & _ & _ & _ & _ & _ & _ & Hlt).
  destruct (@paginate_bounds nat (Session 7 33) (seq 0 45))
    as (_ & _ & Hd & _).
  split; [apply Hs; vm_compute; auto|].
  split; [apply Hlt; reflexivity|].
  apply Hd. vm_compute. intuition discriminate.
Defined.

(** ** States *)

Section StateMap.

Lemma occurs_one_In (x : ascii) (s : str) : occurs [x] s = true -> In x s.
Proof.
  induction s as [|c s IH]; [discriminate|].
  rewrite occurs_cons. cbn [prefixb]. rewrite orb_true_iff, andb_true_iff.
  intros [[H _]|H]; [left; symmetry; now apply Ascii.eqb_eq | right; auto].
Qed.

Lemma cps_inj (a b : str) : cps a = cps b -> a = b.
Proof.
  revert b; induction a as [|x a IH]; intros [|y b]; try discriminate; auto.
  unfold cps. cbn [map]. intros H. injection H as Hxy Hab.
  assert (Hord : nat_of_ascii x = nat_of_ascii y) by (unfold ord in Hxy; lia).
  rewrite <- (ascii_nat_embedding x), <- (ascii_nat_embedding y), Hord.
  f_equal. now apply IH.
Qed.

(** Looking a key up finds the entries of the table, and only them. *)
Lemma state_map_get_In (key abbr : str) :
  state_map_get key = Some abbr <-> In (key, abbr) state_map_simple.
Proof.
  split.
  - unfold state_map_get.
    destruct (find _ state_map_simple) as [[k v]|] eqn:E; [|discriminate].
    apply find_some in E. destruct E as [Hin Hk]. cbn [fst] in Hk.
    apply str_eqb_eq in Hk. cbn [snd]. intros H. injection H as <-. now subst.
  - intros Hin.
    assert (Hall : forallb (fun kv : str * str =>
                     match state_map_get (fst kv) with
                     | Some a => str_eqb a (snd kv)
                     | None => false
                     end) state_map_simple = true) by (vm_compute; reflexivity).
    rewrite forallb_forall in Hall. specialize (Hall _ Hin). cbn [fst snd] in Hall.
    destruct (state_map_get key) as [a|]; [|discriminate].
    apply str_eqb_eq in Hall. now subst.
Qed.

(** No two states share a code. *)
Lemma state_codes_distinct (k k' abbr : str) :
  In (k, abbr) state_map_simple -> In (k', abbr) state_map_simple -> k = k'.
Proof.
  intros H H'.
  assert (Hall : forallb (fun kv : str * str =>
                   forallb (fun kv' : str * str =>
                     implb (str_eqb (snd kv) (snd kv'))
                           (str_eqb (fst kv) (fst kv')))
                     state_map_simple) state_map_simple = true)
    by (vm_compute; reflexivity).
  rewrite forallb_forall in Hall. specialize (Hall _ H).
  rewrite forallb_forall in Hall. specialize (Hall _ H').
  cbn [fst snd] in Hall. rewrite str_eqb_refl in Hall. cbn [implb] in Hall.
  now apply str_eqb_eq.
Qed.

(** X8. [to_code] gives a code exactly in two ways: the value, stripped,
    is two letters, whatever they are, and the code is their upper case;
    or it is not, and its lower-case letters [a-z], everything else
    dropped, spell a key of the table, whose code it is.  A missing value
    gives none. *)
Theorem to_code_spec (val : scalar) (code : code_points) :
  let s := strip (scalar_str val) in
  to_code val = Some code <->
  val <> SNaN
  /\ ((two_letters s = true /\ code = flat_map upper_cp s)
      \/ (two_letters s = false
          /\ exists abbr,
               In (keep is_lower_az (map py_lower s), abbr) state_map_simple
               /\ code = cps abbr)).
Proof.
  cbv zeta.
  assert (Hgen : forall s,
    (if two_letters s then Some (flat_map upper_cp s)
     else option_map cps (state_map_get (keep is_lower_az (map py_lower s))))
    = Some code <->
    ((two_letters s = true /\ code = flat_map upper_cp s)
      \/ (two_letters s = false
          /\ exists abbr,
               In (keep is_lower_az (map py_lower s), abbr) state_map_simple
               /\ code = cps abbr))).
  { intros s. destruct (two_letters s).
    - split.
      + intros H; injection H as <-. left; auto.
      + intros [[_ ->]|[H _]]; [reflexivity | discriminate].
    - split.
      + destruct (state_map_get _) as [abbr|] eqn:E; [|discriminate].
        cbn [option_map]. intros H; injection H as <-. right. split; [reflexivity|].
        exists abbr. split; [now apply state_map_get_In | reflexivity].
      + intros [[H _]|[_ (abbr & Hin & ->)]]; [discriminate|].
        apply state_map_get_In in Hin. now rewrite Hin. }
  destruct val; cbn [to_code];
    try (rewrite Hgen; split; [intros H; split; [discriminate | exact H]
                              | intros [_ H]; exact H]).
  split; [discriminate | intros [H _]; congruence].
Qed.

(** X9. A state whose key in the table has a space is never reached by
    its name: the key itself gives no code, and no value that is not two
    letters gives the code of such a state. *)
Theorem to_code_misses_spaced_names (name abbr : str) :
  In (name, abbr) state_map_simple ->
  occurs [SP] name = true ->
  to_code (SStr name) = None
  /\ forall val, two_letters (strip (scalar_str val)) = false ->
       to_code val <> Some (cps abbr).
Proof.
  intros Hin Hsp. split.
  - assert (Hall : forallb (fun kv : str * str =>
                     implb (occurs [SP] (fst kv))
                       (match to_code (SStr (fst kv)) with
                        | None => true | Some _ => false end))
                     state_map_simple = true) by (vm_compute; reflexivity).
    rewrite forallb_forall in Hall. specialize (Hall _ Hin).
    cbn [fst] in Hall. rewrite Hsp in Hall. cbn [implb] in Hall.
    destruct (to_code (SStr name)); [discriminate | reflexivity].
  - intros val Htwo Hcode.
    assert (Hkey : exists a, state_map_get
                     (keep is_lower_az (map py_lower (strip (scalar_str val))))
                   = Some a /\ cps a = cps abbr).
    { destruct val; cbn [to_code] in Hcode; try discriminate;
        rewrite Htwo in Hcode;
        destruct (state_map_get _) as [a|]; try discriminate;
        cbn [option_map] in Hcode; injection Hcode as Hc; eauto. }
    destruct Hkey as (a & Hget & Ha). apply cps_inj in Ha. subst a.
    apply state_map_get_In in Hget.
    pose proof (state_codes_distinct Hin Hget) as Hname.
    rewrite Hname in Hsp. apply occurs_one_In in Hsp.
    unfold keep in Hsp. apply filter_In in Hsp. destruct Hsp as [_ Hsp].
    discriminate Hsp.
Qed.

Lemma to_code_misses_spaced_names_witness :
  to_code (SStr (lit "new york")) = None
  /\ to_code (SStr (lit "New York")) <> Some (cps (lit "NY")).
Proof.
  assert (Hin : In (lit "new york", lit "NY") state_map_simple).
  { apply state_map_get_In. vm_compute. reflexivity. }
  destruct (@to_code_misses_spaced_names (lit "new york") (lit "NY") Hin eq_refl)
    as [H1 H2].
  split; [exact H1 | apply H2; reflexivity].
Defined.

Lemma find_app_first (A : Type) (f : A -> bool) (before after : list A) (x : A) :
  Forall (fun y => f y = false) before -> f x = true ->
  find f (before ++ x :: after) = Some x.
Proof.
  induction 1 as [|y l Hy _ IH]; intros Hx; cbn [app find].
  - now rewrite Hx.
  - rewrite Hy. auto.
Qed.

Lemma find_none_iff (A : Type) (f : A -> bool) (l : list A) :
  find f l = None <-> forall x, In x l -> f x = false.
Proof.
  split; [apply find_none|].
  induction l as [|a l IH]; [reflexivity|]. intros H. cbn [find].
  rewrite (H a (or_introl eq_refl)). apply IH. intros x Hx. apply H. now right.
Qed.

Lemma exact_state_contains (c : str) :
  str_eqb (map py_lower (strip c)) (lit "state") = true ->
  occurs (lit "state") (map py_lower c) = true.
Proof.
  intros H. apply str_eqb_eq in H.
  destruct (strip_infix c) as (a & t & E). rewrite E, !map_app, H.
  apply occurs_app_r, occurs_app_l. reflexivity.
Qed.

(** X10. The column taken for the states is a column of the table whose
    name contains "state", case apart; none is taken exactly when no name
    does; and the first column named "state", case and outer white space
    apart, is taken even when a column before it contains the word. *)
Theorem find_state_col_spec (columns : list str) :
  (forall c, find_state_col columns = Some c ->
     In c columns /\ occurs (lit "state") (map py_lower c) = true)
  /\ (find_state_col columns = None <->
      forall c, In c columns -> occurs (lit "state") (map py_lower c) = false)
  /\ (forall before c after,
        columns = before ++ c :: after ->
        map py_lower (strip c) = lit "state" ->
        Forall (fun y => map py_lower (strip y) <> lit "state") before ->
        find_state_col columns = Some c).
Proof.
  unfold find_state_col. split; [|split].
  - intros c.
    destruct (find (fun c => str_eqb (map py_lower (strip c)) (lit "state")) columns)
      as [c'|] eqn:E.
    + intros H; injection H as <-. apply find_some in E. destruct E as [Hin Hc].
      split; [exact Hin | now apply exact_state_contains].
    + intros H. apply find_some in H. exact H.
  - destruct (find (fun c => str_eqb (map py_lower (strip c)) (lit "state")) columns)
      as [c'|] eqn:E.
    + split; [discriminate|]. intros H. apply find_some in E.
      destruct E as [Hin Hc]. apply exact_state_contains in Hc.
      rewrite (H _ Hin) in Hc. discriminate.
    + apply find_none_iff.
  - intros before c after -> Hc Hb.
    rewrite (@find_app_first _ _ before after c); [reflexivity| |].
    + eapply Forall_impl; [|exact Hb]. intros y Hy. cbv beta in Hy |- *.
      now apply str_eqb_neq.
    + now apply str_eqb_eq.
Qed.

Lemma find_state_col_spec_witness :
  find_state_col [lit "State Code"; lit " STATE "; lit "Agencies"]
  = Some (lit " STATE ").
Proof.
  apply (proj2 (proj2 (find_state_col_spec
                         [lit "State Code"; lit " STATE "; lit "Agencies"]))
           [lit "State Code"] (lit " STATE ") [lit "Agencies"]).
  - reflexivity.
  - vm_compute. reflexivity.
  - constructor; [vm_compute; discriminate | constructor].
Defined.

End StateMap.

(** ** Cleaning a header twice *)

Section SecondCleaning.

Ltac fresh_in :=
  let x := fresh "x" in
  let Hx := fresh "Hx" in
  let Hp := fresh "Hp" in
  intros x Hx Hp; vm_compute in Hx, Hp;
  repeat match goal with
         | H : _ \/ _ |- _ => destruct H
         | H : False |- _ => destruct H
         end;
  subst; discriminate.

Lemma prefixb_app_compat (q n t : str) :
  prefixb q (n ++ t) = true -> prefixb q n = true \/ prefixb n q = true.
Proof.
  revert n; induction q as [|a q IH]; intros [|b n]; cbn [app]; auto.
  rewrite prefixb_cons. intros [-> H]. cbn [prefixb]. rewrite Ascii.eqb_refl.
  cbn [andb]. auto.
Qed.

Lemma apart_prefixb (a : ascii) (q new t : str) :
  apart (a :: q) new = true -> prefixb (a :: q) (new ++ t) = false.
Proof.
  cbn [apart]. rewrite andb_true_iff, negb_true_iff, orb_false_iff.
  intros [[H1 H2] _]. destruct (prefixb (a :: q) (new ++ t)) eqn:E; [|reflexivity].
  apply prefixb_app_compat in E. destruct E; congruence.
Qed.

Lemma prefixb_replace_reflect_apart (old new q s : str) :
  old <> [] -> apart q new = true ->
  prefixb q (replace old new s) = true -> prefixb q s = true.
Proof.
  intros Hold. revert s. induction q as [|a q IH]; intros s Hq; [reflexivity|].
  destruct s as [|c s].
  - rewrite replace_nil by assumption. discriminate.
  - destruct (prefixb old (c :: s)) eqn:Hp.
    + rewrite replace_hit by assumption.
      rewrite apart_prefixb by assumption. discriminate.
    + rewrite replace_miss by assumption. rewrite !prefixb_cons.
      intros [-> H]. split; [reflexivity|]. apply IH; [|assumption].
      cbn [apart] in Hq. apply andb_true_iff in Hq. apply Hq.
Qed.

Lemma occurs_head_fresh_app (a : ascii) (p new t : str) :
  ~ In a new -> occurs (a :: p) (new ++ t) = occurs (a :: p) t.
Proof.
  induction new as [|x new' IH]; intros Hin; [reflexivity|].
  cbn [app]. rewrite occurs_cons, IH by (intros H; apply Hin; now right).
  cbn [prefixb]. destruct (Ascii.eqb a x) eqn:Hax; [|reflexivity].
  apply Ascii.eqb_eq in Hax. subst. exfalso. apply Hin. now left.
Qed.

(** After the replacement no occurrence of [old] is left, when [old]
    begins with a character the replacement text does not have and no
    later part of it can run into the replacement text. *)
Lemma replace_removes_head (a : ascii) (old' new s : str) :
  ~ In a new -> apart old' new = true ->
  occurs (a :: old') (replace (a :: old') new s) = false.
Proof.
  intros Hin Hap. pattern s.
  apply (replace_scan_ind (old := a :: old')); [discriminate | | |].
  - rewrite replace_nil by discriminate. reflexivity.
  - intros c t Hhit IH. rewrite replace_hit by (discriminate || assumption).
    rewrite occurs_head_fresh_app; assumption.
  - intros c t Hmiss IH. rewrite replace_miss by (discriminate || assumption).
    rewrite occurs_cons, IH, orb_false_r.
    destruct (prefixb (a :: old') (c :: replace (a :: old') new t)) eqn:H;
      [|reflexivity].
    rewrite <- Hmiss. symmetry.
    apply prefixb_cons in H. destruct H as [-> H].
    rewrite prefixb_cons. split; [reflexivity|].
    eapply prefixb_replace_reflect_apart; [| eassumption | eassumption].
    discriminate.
Qed.

Lemma clean_twice_no_nov (s : str) :
  occurs (lit "Nov-15") (clean_colname (clean_colname s)) = false.
Proof.
  set (t := clean_colname s).
  destruct (occurs (lit "Nov-15") (clean_colname t)) eqn:H; [exfalso|reflexivity].
  unfold clean_colname in H.
  apply occurs_strip_reflect in H.
  apply occurs_sub_spaces_reflect in H; [|discriminate|reflexivity].
  rewrite (replace_absent (old := [NL])) in H;
    [|discriminate|apply clean_colname_no_break].
  rewrite (replace_absent (old := ARTIFACT)) in H;
    [|discriminate|apply clean_colname_no_artifact].
  rewrite (replace_absent (old := ARTIFACT ++ lit "15")) in H; [|discriminate|].
  2:{ destruct (occurs (ARTIFACT ++ lit "15") t) eqn:H'; [|reflexivity].
      apply occurs_prefix_of in H'. unfold t in H'.
      now rewrite clean_colname_no_artifact in H'. }
  rewrite (replace_absent (old := lit "?")) in H; [|discriminate|].
  2:{ destruct (occurs (lit "?") (replace (lit "Nov-15") (lit "11-15") t)) eqn:H';
        [|reflexivity].
      apply occurs_replace_reflect in H';
        [|discriminate|discriminate|fresh_in|discriminate].
      unfold t in H'. now rewrite clean_colname_no_question in H'. }
  change (lit "Nov-15") with ("N"%char :: lit "ov-15") in H.
  rewrite replace_removes_head in H; [discriminate| |reflexivity].
  vm_compute. intuition discriminate.
Qed.

(** X11. Cleaning a header a third time changes nothing: the second
    cleaning already gives a label in which "Nov-15" does not occur, and
    which every later cleaning leaves as it is.  The first cleaning does
    not give such a label in general: "Nov?15" is cleaned into "Nov-15",
    and that into "11-15". *)
Theorem clean_colname_twice :
  (forall s : str,
     occurs (lit "Nov-15") (clean_colname (clean_colname s)) = false
     /\ clean_colname (clean_colname (clean_colname s))
        = clean_colname (clean_colname s))
  /\ clean_colname (lit "Nov?15") = lit "Nov-15"
  /\ clean_colname (clean_colname (lit "Nov?15")) = lit "11-15".
Proof.
  split; [|split; vm_compute; reflexivity].
  intros s. split; [apply clean_twice_no_nov|].
  apply clean_colname_idempotent, clean_twice_no_nov.
Qed.

End SecondCleaning.

(** ** Tables the normalizer returns *)

Section Results.

Lemma NoDup_map_inj (A B : Type) (f : A -> B) (l : list A) :
  (forall x y, f x = f y -> x = y) -> NoDup l -> NoDup (map f l).
Proof.
  intros Hf. induction 1 as [|a l Ha _ IH]; cbn [map]; constructor; auto.
  intros H. apply in_map_iff in H. destruct H as (y & E & Hy).
  apply Hf in E. now subst.
Qed.

Lemma clean_dataframe_raise_inv (v : pandas) (df : DataFrame) (e : exn) :
  clean_dataframe v df = Raise e ->
  empty df = false
  /\ (~ NoDup (kept_labels df)
      \/ (has_Int64Index v = false
          /\ exists l, candidate (prepared df) = Some l)).
Proof.
  intros H. destruct (empty df) eqn:He.
  - rewrite (clean_dataframe_empty v df He) in H. discriminate.
  - split; [reflexivity|]. rewrite <- kept_labels_of_prepared.
    destruct (clean_dataframe_total v df He)
      as [[_ [[df' E]|(Hv & (l & c & Hc & _) & _)]]|[Hnd _]].
    + congruence.
    + right. split; [exact Hv|]. now exists l.
    + now left.
Qed.

(** X12. The normalizer returns the empty table for an empty one.  For a
    table with rows and columns it raises when two of the cleaned labels it
    keeps are equal, and only then where [pd.Int64Index] exists or the table
    has no index-like candidate.  Where [pd.Int64Index] is missing, a table
    with pairwise distinct kept labels and a candidate is returned exactly
    when the candidate fails the test of the index step (for cells within
    the exact range). *)
Theorem clean_dataframe_returns_iff (v : pandas) (df : DataFrame) :
  (empty df = true -> clean_dataframe v df = Ok empty_frame)
  /\ (empty df = false -> ~ NoDup (kept_labels df) ->
      exists e, clean_dataframe v df = Raise e
        /\ (e = AttributeError \/ e = ValueError))
  /\ (empty df = false -> NoDup (kept_labels df) ->
      has_Int64Index v = true \/ candidate (prepared df) = None ->
      exists df', clean_dataframe v df = Ok df')
  /\ (forall e, clean_dataframe v df = Raise e ->
       empty df = false
       /\ (~ NoDup (kept_labels df)
           \/ (has_Int64Index v = false
               /\ exists l, candidate (prepared df) = Some l)))
  /\ (exact_frame df = true -> empty df = false -> NoDup (kept_labels df) ->
      has_Int64Index v = false ->
      forall l c, candidate (prepared df) = Some l -> In (l, c) (prepared df) ->
        ((exists df', clean_dataframe v df = Ok df')
         <-> adoptable (nrows df) c = false)
        /\ (clean_dataframe v df = Raise AttributeError
            <-> adoptable (nrows df) c = true)).
Proof.
  rewrite <- kept_labels_of_prepared.
  split; [apply clean_dataframe_empty|].
  split; [|split; [|split]].
  - intros He Hnd.
    destruct (clean_dataframe_total v df He) as [[Hnd' _]|[_ (d & _ & E)]];
      [contradiction|].
    rewrite E. destruct (str_eqb d (lit "dtype")); eauto.
  - intros He Hnd Hv.
    pose proof (clean_dataframe_cases v df He Hnd) as H.
    destruct (candidate (prepared df)) as [l|] eqn:Hc; [|eauto].
    destruct Hv as [Hv|Hv]; [|discriminate].
    destruct H as (c & _ & H). rewrite H, Hv.
    destruct (adoptable (nrows df) c); eauto.
  - intros e H. rewrite kept_labels_of_prepared.
    apply (clean_dataframe_raise_inv v df H).
  - intros _ He Hnd Hv l c Hc Hin.
    pose proof (clean_dataframe_cases v df He Hnd) as H.
    rewrite Hc in H. destruct H as (c' & Hin' & H).
    assert (c' = c).
    { pose proof (@getitem_unique _ _ _ Hnd Hin) as E1.
      pose proof (@getitem_unique _ _ _ Hnd Hin') as E2. congruence. }
    subst c'. rewrite H, Hv.
    destruct (adoptable (nrows df) c); split; split;
      try discriminate; try reflexivity; eauto.
    intros [df' E]. discriminate E.
Qed.

Lemma clean_dataframe_returns_iff_witness :
  (exists e, clean_dataframe Pandas2 duplicate_frame = Raise e
     /\ (e = AttributeError \/ e = ValueError))
  /\ (exists df', clean_dataframe Pandas1 indexed_frame = Ok df')
  /\ clean_dataframe Pandas2 indexed_frame = Raise AttributeError.
Proof.
  split; [|split].
  - apply (proj1 (proj2 (clean_dataframe_returns_iff Pandas2 duplicate_frame)));
      [reflexivity|].
    vm_compute. intros H. inversion H as [|? ? Hn _]. apply Hn. now left.
  - apply (proj1 (proj2 (proj2 (clean_dataframe_returns_iff Pandas1 indexed_frame))));
      [reflexivity | | now left].
    vm_compute. repeat constructor; simpl; intuition discriminate.
  - destruct (clean_dataframe_returns_iff Pandas2 indexed_frame)
      as (_ & _ & _ & _ & H).
    apply (H eq_refl eq_refl
             ltac:(vm_compute; repeat constructor; simpl; intuition discriminate)
             eq_refl (lit "id") (Int64Col [3; 1; 2]%Z)).
    + vm_compute. reflexivity.
    + left. vm_compute. reflexivity.
    + vm_compute. reflexivity.
Defined.

(** X13. The labels of a returned table are the kept cleaned labels in
    the order of the input columns, all of them or all but one, which
    matches the index-like pattern; they are pairwise distinct, and so are
    the values of the row index. *)
Theorem clean_dataframe_result_shape (v : pandas) (df df' : DataFrame) :
  clean_dataframe v df = Ok df' -> empty df = false -> well_formed df ->
  NoDup (kept_labels df)
  /\ (labels df' = kept_labels df
      \/ exists l, In l (kept_labels df)
           /\ index_like_pattern (strip l) = true
           /\ labels df' = filter (fun x => negb (str_eqb x l)) (kept_labels df))
  /\ NoDup (labels df')
  /\ NoDup (index_values (df_index df')).
Proof.
  intros H He Hwf.
  pose proof (clean_dataframe_ok_inv v df H He) as Hnd.
  rewrite kept_labels_of_prepared in Hnd.
  assert (Hkey : forall l l' : Z, IntKey l = IntKey l' -> l = l')
    by (intros l l' E; now injection E).
  destruct (clean_dataframe_columns v df H He)
    as [(Hi & Hc & _)|(l & c & Hcand & Hin & Had & _ & Hi & Hc)].
  - unfold labels. rewrite Hc, Hi, kept_labels_of_prepared.
    repeat split; auto.
    rewrite index_values_one_based. unfold one_based.
    apply NoDup_map_inj; [|apply seq_NoDup].
    intros x y E. injection E as E. lia.
  - destruct (candidate_In _ Hcand) as (Hl & Hp & _).
    rewrite kept_labels_of_prepared in Hl.
    unfold labels. rewrite Hc, Hi, labels_of_drop, kept_labels_of_prepared.
    repeat split; auto.
    + right. exists l. auto.
    + now apply NoDup_filter.
    + cbn [index_values]. apply NoDup_map_inj; [exact Hkey|].
      destruct (@prepared_In df l c Hin) as (l0 & c0 & Hin0 & _ & Ec & _).
      assert (Hlen : col_len c = nrows df).
      { rewrite Ec, coerce_series_len.
        unfold well_formed in Hwf. rewrite Forall_forall in Hwf.
        apply (Hwf _ Hin0). }
      rewrite <- Hlen in Had.
      destruct (adoptable_spec c) as [Hex Hval].
      apply Hex in Had. destruct Had as [ints Hints].
      rewrite (Hval ints Hints). apply Hints.
Qed.

Lemma clean_dataframe_result_shape_witness :
  NoDup (kept_labels indexed_frame)
  /\ (labels (Frame (Int64Index [3; 1; 2]%Z)
                [(lit "State", text ["Ohio"; "Utah"; "Iowa"]%string)])
      = kept_labels indexed_frame
      \/ exists l, In l (kept_labels indexed_frame)
           /\ index_like_pattern (strip l) = true
           /\ labels (Frame (Int64Index [3; 1; 2]%Z)
                        [(lit "State", text ["Ohio"; "Utah"; "Iowa"]%string)])
              = filter (fun x => negb (str_eqb x l)) (kept_labels indexed_frame))
  /\ NoDup (labels (Frame (Int64Index [3; 1; 2]%Z)
                      [(lit "State", text ["Ohio"; "Utah"; "Iowa"]%string)]))
  /\ NoDup (index_values (Int64Index [3; 1; 2]%Z)).
Proof.
  apply (@clean_dataframe_result_shape Pandas1 indexed_frame
           (Frame (Int64Index [3; 1; 2]%Z)
              [(lit "State", text ["Ohio"; "Utah"; "Iowa"]%string)])).
  - vm_compute. reflexivity.
  - reflexivity.
  - repeat constructor.
Defined.

(** X14. A column that is not a text column and whose cleaned label is
    kept goes through the normalizer untouched: it is a column of the
    result under its cleaned label, with the cells it had, unless it is the
    column the row index was taken from. *)
Theorem numeric_columns_pass_through
  (v : pandas) (df df' : DataFrame) (l : str) (c : column) :
  clean_dataframe v df = Ok df' -> empty df = false ->
  In (l, c) (df_columns df) -> is_object c = false ->
  prefixb (lit "Unnamed") (clean_colname l) = false ->
  In (clean_colname l, c) (df_columns df')
  \/ (candidate (prepared df) = Some (clean_colname l)
      /\ adoptable (nrows df) c = true
      /\ df_index df' = Int64Index (astype_int (conv c))).
Proof.
  intros H He Hin Hobj Hun.
  pose proof (clean_dataframe_ok_inv v df H He) as Hnd.
  assert (Hc : coerce_series c = c).
  { destruct (coerce_series_cases c) as [E|[E _]]; [exact E | congruence]. }
  assert (Hprep : In (clean_colname l, c) (prepared df)).
  { unfold prepared, drop_unnamed, renamed.
    apply in_map_iff. exists (clean_colname l, c). cbn [fst snd].
    split; [now rewrite Hc|]. apply filter_In. cbn [fst]. split.
    - apply in_map_iff. exists (l, c). auto.
    - now rewrite Hun. }
  destruct (clean_dataframe_columns v df H He)
    as [(_ & Ecols & _)|(l0 & c0 & Hcand & Hin0 & Had & _ & Hi & Ecols)].
  - left. now rewrite Ecols.
  - destruct (str_eqb (clean_colname l) l0) eqn:El.
    + right. apply str_eqb_eq in El. subst l0.
      pose proof (@getitem_unique _ _ _ Hnd Hprep) as E1.
      pose proof (@getitem_unique _ _ _ Hnd Hin0) as E2.
      assert (c0 = c) by congruence. subst c0. auto.
    + left. rewrite Ecols. unfold drop. apply filter_In. cbn [fst].
      split; [assumption | now rewrite El].
Qed.

Lemma numeric_columns_pass_through_witness :
  In (lit "A", Int64Col [1; 2]%Z)
     (df_columns (Frame (RangeIndex 1 3)
                    [(lit "A", Int64Col [1; 2]%Z);
                     (lit "id", Float64Col [Some (Dec 1 0); None])]))
  \/ (candidate (prepared (Frame (RangeIndex 0 2)
                    [(lit "A ", Int64Col [1; 2]%Z);
                     (lit "id", Float64Col [Some (Dec 1 0); None])]))
      = Some (clean_colname (lit "A "))
      /\ adoptable 2 (Int64Col [1; 2]%Z) = true
      /\ RangeIndex 1 3 = Int64Index (astype_int (conv (Int64Col [1; 2]%Z)))).
Proof.
  apply (@numeric_columns_pass_through Pandas2
           (Frame (RangeIndex 0 2)
              [(lit "A ", Int64Col [1; 2]%Z);
               (lit "id", Float64Col [Some (Dec 1 0); None])])
           (Frame (RangeIndex 1 3)
              [(lit "A", Int64Col [1; 2]%Z);
               (lit "id", Float64Col [Some (Dec 1 0); None])])
           (lit "A ") (Int64Col [1; 2]%Z)).
  - vm_compute. reflexivity.
  - reflexivity.
  - left. reflexivity.
  - reflexivity.
  - reflexivity.
Defined.

(** X15. An exception leaves [load_csv] only from the normalizer, on a
    table that [read_csv] returned, with rows and columns, in which two kept
    columns share a cleaned label or, where [pd.Int64Index] is missing,
    there is an index-like candidate: what [read_csv] raises never leaves
    it, and when no read returns a table the result is the empty table.
    Each encoding is tried once at most, the fallback after the default
    one. *)
Theorem load_csv_raise_origin (v : pandas) (fs : file_system) (name : str) :
  (forall e, fst (load_csv v fs name) = Raise e ->
     path_exists fs name = true
     /\ exists df,
          (read_csv fs name Utf8 = Ok df
           \/ ((exists e', read_csv fs name Utf8 = Raise e')
               /\ read_csv fs name Latin1 = Ok df))
          /\ clean_dataframe v df = Raise e
          /\ empty df = false
          /\ (~ NoDup (kept_labels df)
              \/ (has_Int64Index v = false
                  /\ exists l, candidate (prepared df) = Some l)))
  /\ ((forall enc df, read_csv fs name enc <> Ok df) ->
      load_csv v fs name
      = (Ok empty_frame, if path_exists fs name then [Utf8; Latin1] else []))
  /\ (snd (load_csv v fs name) = []
      \/ snd (load_csv v fs name) = [Utf8]
      \/ snd (load_csv v fs name) = [Utf8; Latin1]).
Proof.
  unfold load_csv. destruct (path_exists fs name); cbn [negb].
  2:{ split; [intros e H; discriminate H | split; [reflexivity | auto]]. }
  destruct (read_csv fs name Utf8) as [df|e1] eqn:E1.
  - split; [|split; [|auto]].
    + cbn [fst]. intros e H. split; [reflexivity|]. exists df.
      destruct (clean_dataframe_raise_inv v df H). auto.
    + intros Hno. exfalso. apply (Hno Utf8 df E1).
  - destruct (read_csv fs name Latin1) as [df|e2] eqn:E2.
    + split; [|split; [|auto]].
      * cbn [fst]. intros e H. split; [reflexivity|]. exists df.
        destruct (clean_dataframe_raise_inv v df H). split; [right; eauto | auto].
      * intros Hno. exfalso. apply (Hno Latin1 df E2).
    + split; [intros e H; discriminate H | split; [reflexivity | auto]].
Qed.

Lemma load_csv_raise_origin_witness :
  path_exists duplicate_fs (lit "a.csv") = true
  /\ exists df,
       (read_csv duplicate_fs (lit "a.csv") Utf8 = Ok df
        \/ ((exists e', read_csv duplicate_fs (lit "a.csv") Utf8 = Raise e')
            /\ read_csv duplicate_fs (lit "a.csv") Latin1 = Ok df))
       /\ clean_dataframe Pandas2 df = Raise AttributeError
       /\ empty df = false
       /\ (~ NoDup (kept_labels df)
           \/ (has_Int64Index Pandas2 = false
               /\ exists l, candidate (prepared df) = Some l)).
Proof.
  apply (proj1 (load_csv_raise_origin Pandas2 duplicate_fs (lit "a.csv"))
           AttributeError).
  vm_compute. reflexivity.
Defined.

End Results.

(** ** The column that colours the map *)

Section AgenciesColumn.

Lemma first_candidate_some (cands columns : list str) (c : str) :
  first_candidate cands columns = Some c ->
  In c columns
  /\ exists cand, In cand cands /\ map py_lower cand = map py_lower c.
Proof.
  induction cands as [|a rest IH]; [discriminate|]. cbn [first_candidate].
  destruct (find (fun c => str_eqb (map py_lower a) (map py_lower c)) columns)
    as [c0|] eqn:E.
  - destruct (nonempty c0).
    + intros H; injection H as <-. apply find_some in E. destruct E as [Hin Hc].
      apply str_eqb_eq in Hc. split; [exact Hin|]. exists a. split; [now left | exact Hc].
    + intros H. destruct (IH H) as (Hin & cand & Hc & El).
      split; [exact Hin|]. exists cand. split; [now right | exact El].
  - intros H. destruct (IH H) as (Hin & cand & Hc & El).
    split; [exact Hin|]. exists cand. split; [now right | exact El].
Qed.

Lemma first_candidate_none (cands columns : list str) :
  Forall (fun cand => cand <> []) cands ->
  (first_candidate cands columns = None <->
   forall cand c, In cand cands -> In c columns ->
     map py_lower cand <> map py_lower c).
Proof.
  induction 1 as [|a rest Ha _ IH]; cbn [first_candidate].
  - split; [intros _ cand c []|reflexivity].
  - destruct (find (fun c => str_eqb (map py_lower a) (map py_lower c)) columns)
      as [c0|] eqn:E.
    + apply find_some in E. destruct E as [Hin Hc]. apply str_eqb_eq in Hc.
      assert (Hne : nonempty c0 = true).
      { destruct c0; [|reflexivity]. destruct a; [congruence | discriminate]. }
      rewrite Hne. split; [discriminate|].
      intros H. exfalso. apply (H a c0); [now left | assumption | assumption].
    + rewrite IH. split.
      * intros H cand c [<-|Hc] Hin; [|now apply H].
        pose proof (find_none _ _ E c Hin) as Hn. cbv beta in Hn.
        now apply str_eqb_neq.
      * intros H cand c Hc Hin. apply H; [now right | assumption].
Qed.

(** X16. The column that colours the map is a column of the table, one
    whose name is a candidate name, case apart, or else the first numeric
    column; a column named as the first candidate is taken whatever its
    cells are, the first such column from the left; no column is taken
    exactly when no name is a candidate name and no column is numeric. *)
Theorem find_agencies_col_spec (cols : list (str * column)) :
  (forall c, find_agencies_col cols = Some c ->
     In c (map fst cols)
     /\ ((exists cand, In cand agency_candidates
            /\ map py_lower cand = map py_lower c)
         \/ exists rest, numeric_cols cols = c :: rest))
  /\ (find_agencies_col cols = None <->
      numeric_cols cols = []
      /\ forall cand c, In cand agency_candidates -> In c (map fst cols) ->
           map py_lower cand <> map py_lower c)
  /\ (forall before c after,
        map fst cols = before ++ c :: after ->
        map py_lower c = map py_lower (lit "Number of Participating Agencies") ->
        Forall (fun y => map py_lower y
                         <> map py_lower (lit "Number of Participating Agencies"))
          before ->
        find_agencies_col cols = Some c).
Proof.
  assert (Hne : Forall (fun cand : str => cand <> []) agency_candidates)
    by (repeat constructor; discriminate).
  unfold find_agencies_col. split; [|split].
  - intros c. destruct (first_candidate agency_candidates (map fst cols))
      as [c0|] eqn:E.
    + intros H; injection H as <-. apply first_candidate_some in E.
      destruct E as [Hin Hc]. auto.
    + destruct (numeric_cols cols) as [|c0 rest] eqn:En; [discriminate|].
      intros H; injection H as <-. split; [|right; eauto].
      assert (Hin : In c0 (numeric_cols cols)) by (rewrite En; now left).
      unfold numeric_cols in Hin. apply in_map_iff in Hin.
      destruct Hin as (lc & <- & Hlc). apply filter_In in Hlc.
      apply in_map. apply Hlc.
  - destruct (first_candidate agency_candidates (map fst cols)) as [c0|] eqn:E.
    + split; [discriminate|]. intros [_ H].
      apply (proj2 (first_candidate_none (map fst cols) Hne)) in H. congruence.
    + pose proof (proj1 (first_candidate_none (map fst cols) Hne) E) as E'.
      destruct (numeric_cols cols); split; auto; try discriminate.
      intros [H _]. discriminate.
  - intros before c after Ecols Hc Hb.
    unfold agency_candidates. cbn [map first_candidate].
    rewrite Ecols, (@find_app_first _ _ before after c).
    + destruct c; [discriminate Hc | reflexivity].
    + eapply Forall_impl; [|exact Hb]. intros y Hy. cbv beta in Hy |- *.
      apply str_eqb_neq. intros E'. apply Hy. now symmetry.
    + apply str_eqb_eq. now symmetry.
Qed.

Lemma find_agencies_col_spec_witness :
  In (lit "population") [lit "State"; lit "population"; lit "Count"]
  /\ ((exists cand, In cand agency_candidates
         /\ map py_lower cand = map py_lower (lit "population"))
      \/ exists rest,
           numeric_cols [(lit "State", text ["Ohio"]%string);
                         (lit "population", text ["1,234"]%string);
                         (lit "Count", Int64Col [7]%Z)]
           = lit "population" :: rest).
Proof.
  apply (proj1 (find_agencies_col_spec
                  [(lit "State", text ["Ohio"]%string);
                   (lit "population", text ["1,234"]%string);
                   (lit "Count", Int64Col [7]%Z)]) (lit "population")).
  vm_compute. reflexivity.
Defined.

End AgenciesColumn.
